(** * cshell: the command-tree executor of [src/cmd.c]

    A shallow embedding of [cmd.c] over an explicit model of the
    operating-system state that the file manipulates (descriptor table,
    environment, working directory, children to be reaped), followed by the
    properties of the tree interpreter, the simple-command executor and the
    redirection manager. *)

From Stdlib Require Import ZArith String Ascii List Bool Lia.
From stdpp Require Import base option gmap strings list list_numbers fin_sets.

Local Open Scope string_scope.
Local Open Scope list_scope.
Local Open Scope Z_scope.
Local Set Warnings "-register-all".

(** ** Data model: the command tree (parser side) *)

(** Modelled from the spec: [word_t] is declared in the parser's header, which
    is missing.  [cmd.c] reads the fields [string] and [next_word]; the spec
    calls a word "a possibly-multi-part string expression", kept here as
    [next_part] and only ever inspected by the expansion routine. *)
Inductive word_t : Type :=
  mk_word {
    w_string : option string;      (* const char *string, may be NULL *)
    next_part : option word_t;
    next_word : option word_t
  }.

(** Modelled from the spec: the fields of [simple_command_t] that [cmd.c]
    reads; every pointer may be NULL. *)
Record simple_command_t : Type :=
  mk_simple {
    verb : option word_t;
    params : option word_t;
    s_in : option word_t;
    s_out : option word_t;
    s_err : option word_t;
    io_flags : Z
  }.

(** The operator tags dispatched on by [parse_command]; [OP_DUMMY] stands for
    every tag that reaches the [default] label. *)
Inductive operator_t : Type :=
| OP_NONE
| OP_SEQUENTIAL
| OP_PARALLEL
| OP_CONDITIONAL_ZERO
| OP_CONDITIONAL_NZERO
| OP_PIPE
| OP_DUMMY.

Inductive command_t : Type :=
  mk_command {
    op : operator_t;
    scmd : option simple_command_t;
    cmd1 : option command_t;
    cmd2 : option command_t
  }.

(** The chain of words linked through [next_word], starting at [w]. *)
Fixpoint word_chain (w : word_t) : list word_t :=
  match w with
  | mk_word _ _ nw =>
      w :: match nw with
           | Some n => word_chain n
           | None => []
           end
  end.

Definition words (w : option word_t) : list word_t :=
  match w with
  | None => []
  | Some h => word_chain h
  end.

(** ** Data model: the operating system seen by one process *)

(** An open file description: what a descriptor refers to, and what carries
    the file offset.  Two descriptors share an offset exactly when they refer
    to the same description. *)
Inductive ofd : Type :=
| OfdFile (inode : nat) (flags : Z)
| OfdPipeRead (pipe_id : nat)
| OfdPipeWrite (pipe_id : nat).

(** The calls the program makes that are visible outside the process. *)
Inductive event : Type :=
| EvOpen (path : string) (flags : Z) (result : option nat)
| EvChdir (path : option string) (ok : bool)
| EvFork (pid : Z)
| EvPipe (pipe_id : nat)
| EvExecvp (argv : list string) (found : bool)
| EvDiag (msg : string).

Record process : Type :=
  mk_process {
    cwd : string;
    env : gmap string string;
    fds : gmap Z nat;          (* descriptor -> index of its description *)
    children : gmap Z Z        (* terminated, not yet reaped: pid -> status *)
  }.

Record world : Type :=
  mk_world {
    ofds : list ofd;           (* every description created so far *)
    next_pid : Z;
    trace : list event         (* most recent call first *)
  }.

Definition log (e : event) (w : world) : world :=
  mk_world (ofds w) (next_pid w) (e :: trace w).

Definition new_ofd (d : ofd) (w : world) : nat * world :=
  (length (ofds w), mk_world (ofds w ++ [d]) (next_pid w) (trace w)).

(** ** What lies outside [cmd.c] *)

(** The constants of the missing headers and the behaviour of the kernel and
    of the programs that get executed.  Every decision of the environment may
    depend on the whole history of calls, which the [world] carries. *)
Class OS : Type :=
  {
    (** [cmd.h]: the value [shell_exit] returns. *)
    SHELL_EXIT : Z;
    (** the parser's header: bits of [io_flags]. *)
    IO_OUT_APPEND : Z;
    IO_ERR_APPEND : Z;
    (** [utils.h]: the status with which [DIE] terminates the process. *)
    DIE_STATUS : Z;
    (** [utils.c]: the expansion of a word to one string. *)
    get_word : word_t -> gmap string string -> string;
    (** [open(2)]: the inode reached, or failure. *)
    os_open : world -> string -> string -> Z -> option nat;
    (** [chdir(2)]: the new working directory, or failure. *)
    os_chdir : world -> string -> string -> option string;
    os_fork_fails : world -> bool;
    os_pipe_fails : world -> bool;
    (** [execvp(3)]: [None] when no image could be executed, otherwise the
        wait status with which the program ends and the calls it made
        (programs are taken to terminate). *)
    os_execvp : world -> process -> list string -> option (Z * list event)
  }.

(** ** Results of running code inside one process *)

Inductive outcome (A : Type) : Type :=
| Ret (a : A) (p : process) (w : world)    (* the code returned [a] *)
| Term (wstatus : Z) (w : world)           (* the process terminated *)
| Undef.                                   (* undefined behaviour *)

Arguments Ret {A} a p w.
Arguments Term {A} wstatus w.
Arguments Undef {A}.

Definition M (A : Type) : Type := process -> world -> outcome A.

Definition ret {A} (a : A) : M A := fun p w => Ret a p w.

Definition bind {A B} (m : M A) (k : A -> M B) : M B :=
  fun p w =>
    match m p w with
    | Ret a p' w' => k a p' w'
    | Term st w' => Term st w'
    | Undef => Undef
    end.

Notation "x <- m ;; k" := (bind m (fun x => k))
  (at level 90, m at level 80, k at level 200, right associativity,
   format "'[v' x  <-  m  ;; '/' k ']'").
Notation "m ;;; k" := (bind m (fun _ => k))
  (at level 90, k at level 200, right associativity,
   format "'[v' m  ;;; '/' k ']'").

Definition undef {A} : M A := fun _ _ => Undef.

(** ** Constants of the system headers (Linux) *)

Definition STDIN_FILENO : Z := 0.
Definition STDOUT_FILENO : Z := 1.
Definition STDERR_FILENO : Z := 2.
Definition O_RDONLY : Z := 0.
Definition O_WRONLY : Z := 1.
Definition O_CREAT : Z := 64.
Definition O_TRUNC : Z := 512.
Definition O_APPEND : Z := 1024.
Definition EXIT_FAILURE : Z := 1.
Definition READ : nat := 0.
Definition WRITE : nat := 1.

(** [W_EXITCODE(code, 0)] and [WEXITSTATUS(status)] of [<sys/wait.h>]. *)
Definition W_EXITCODE (code : Z) : Z := Z.shiftl (Z.land code 255) 8.
Definition WEXITSTATUS (status : Z) : Z := Z.shiftr (Z.land status 65280) 8.

(** ** The descriptor table *)

Fixpoint lowest_free_from (t : gmap Z nat) (fuel : nat) (fd : Z) : Z :=
  match fuel with
  | O => fd
  | S k =>
      match t !! fd with
      | None => fd
      | Some _ => lowest_free_from t k (fd + 1)
      end
  end.

(** The descriptor a successful [open], [dup] or [pipe] hands out. *)
Definition lowest_free (t : gmap Z nat) : Z :=
  lowest_free_from t (size t) 0.

Definition set_fds (t : gmap Z nat) (p : process) : process :=
  mk_process (cwd p) (env p) t (children p).

Definition set_env (e : gmap string string) (p : process) : process :=
  mk_process (cwd p) e (fds p) (children p).

Definition set_cwd (d : string) (p : process) : process :=
  mk_process d (env p) (fds p) (children p).

Definition set_children (c : gmap Z Z) (p : process) : process :=
  mk_process (cwd p) (env p) (fds p) c.

(** ** System and library calls *)

Section Calls.
Context {os : OS}.

Definition exit {A} (code : Z) : M A :=
  fun _ w => Term (W_EXITCODE code) w.

Definition diag (msg : string) : M unit :=
  fun p w => Ret tt p (log (EvDiag msg) w).

(** Modelled from the spec: the macro [DIE] of the missing [utils.h];
    "terminates the current process immediately with a diagnostic". *)
Definition die {A} (call_description : string) : M A :=
  diag call_description ;;; exit DIE_STATUS.

Definition DIE (assertion : bool) (call_description : string) : M unit :=
  if assertion then die call_description else ret tt.

Definition sys_open (path : string) (flags : Z) : M Z :=
  fun p w =>
    match os_open w (cwd p) path flags with
    | None => Ret (-1) p (log (EvOpen path flags None) w)
    | Some ino =>
        let fd := lowest_free (fds p) in
        let '(id, w1) := new_ofd (OfdFile ino flags) w in
        Ret fd (set_fds (<[fd := id]> (fds p)) p)
            (log (EvOpen path flags (Some ino)) w1)
    end.

Definition sys_dup (oldfd : Z) : M Z :=
  fun p w =>
    match fds p !! oldfd with
    | None => Ret (-1) p w
    | Some id =>
        let fd := lowest_free (fds p) in
        Ret fd (set_fds (<[fd := id]> (fds p)) p) w
    end.

Definition sys_dup2 (oldfd newfd : Z) : M Z :=
  fun p w =>
    match fds p !! oldfd with
    | None => Ret (-1) p w
    | Some id =>
        if newfd <? 0 then Ret (-1) p w
        else Ret newfd (set_fds (<[newfd := id]> (fds p)) p) w
    end.

Definition sys_close (fd : Z) : M Z :=
  fun p w =>
    match fds p !! fd with
    | None => Ret (-1) p w
    | Some _ => Ret 0 (set_fds (delete fd (fds p)) p) w
    end.

Definition sys_chdir (path : option string) : M Z :=
  fun p w =>
    match path with
    | None => Ret (-1) p (log (EvChdir None false) w)
    | Some d =>
        match os_chdir w (cwd p) d with
        | None => Ret (-1) p (log (EvChdir path false) w)
        | Some d' => Ret 0 (set_cwd d' p) (log (EvChdir path true) w)
        end
    end.

(** [pipe(2)]: on success the two ends, read end first. *)
Definition sys_pipe : M (Z * (Z * Z)) :=
  fun p w =>
    if os_pipe_fails w then Ret (-1, (0, 0)) p w
    else
      let pipe_id := length (ofds w) in
      let '(idr, w1) := new_ofd (OfdPipeRead pipe_id) w in
      let '(idw, w2) := new_ofd (OfdPipeWrite pipe_id) w1 in
      let fdr := lowest_free (fds p) in
      let t1 := <[fdr := idr]> (fds p) in
      let fdw := lowest_free t1 in
      Ret (0, (fdr, fdw)) (set_fds (<[fdw := idw]> t1) p)
          (log (EvPipe pipe_id) w2).

(** [fork(2)].  The child starts from a copy of the caller (no children of
    its own) and runs [child], which never returns; the model lets it run
    to its end before the parent continues, and keeps its wait status for
    [waitpid]. *)
Definition sys_fork (child : M Empty_set) : M Z :=
  fun p w =>
    if os_fork_fails w then Ret (-1) p w
    else
      let pid := next_pid w in
      let w0 := log (EvFork pid) (mk_world (ofds w) (pid + 1) (trace w)) in
      match child (set_children ∅ p) w0 with
      | Ret a _ _ => match a with end
      | Term st w1 => Ret pid (set_children (<[pid := st]> (children p)) p) w1
      | Undef => Undef
      end.

(** [waitpid(pid, &status, 0)]: the return value and what [status] holds
    afterwards ([None]: left uninitialised). *)
Definition sys_waitpid (pid : Z) : M (Z * option Z) :=
  fun p w =>
    match children p !! pid with
    | None => Ret (-1, None) p w
    | Some st => Ret (pid, Some st) (set_children (delete pid (children p)) p) w
    end.

Definition read_status (status : option Z) : M Z :=
  match status with
  | None => undef
  | Some st => ret st
  end.

(** [execvp(3)]: returns (with -1) only on failure. *)
Definition sys_execvp (argv : list string) : M Z :=
  fun p w =>
    match os_execvp w p argv with
    | None => Ret (-1) p (log (EvExecvp argv false) w)
    | Some (st, evs) =>
        Term st (mk_world (ofds w) (next_pid w)
                          (rev evs ++ EvExecvp argv true :: trace w))
    end.

Definition name_ok (name : string) : bool :=
  negb (String.eqb name "") &&
  negb (existsb (Ascii.eqb "="%char) (list_ascii_of_string name)).

(** [setenv(3)]; it refuses an empty name and a name containing '='. *)
Definition setenv (name value : string) (overwrite : Z) : M Z :=
  fun p w =>
    if name_ok name then
      match env p !! name with
      | Some _ =>
          if overwrite =? 0 then Ret 0 p w
          else Ret 0 (set_env (<[name := value]> (env p)) p) w
      | None => Ret 0 (set_env (<[name := value]> (env p)) p) w
      end
    else Ret (-1) p w.

Definition getenv_word (w : word_t) : M string :=
  fun p wd => Ret (get_word w (env p)) p wd.

(** [strchr(s, c) != NULL] *)
Definition strchr (s : string) (c : ascii) : bool :=
  existsb (Ascii.eqb c) (list_ascii_of_string s).

Fixpoint skip_delim (delim : ascii) (s : list ascii) : list ascii :=
  match s with
  | [] => []
  | c :: r => if Ascii.eqb c delim then skip_delim delim r else s
  end.

Fixpoint take_token (delim : ascii) (s : list ascii) : list ascii * list ascii :=
  match s with
  | [] => ([], [])
  | c :: r =>
      if Ascii.eqb c delim then ([], r)
      else let '(t, rest) := take_token delim r in (c :: t, rest)
  end.

(** [strtok_r(s, delim, &save)] for a one-character [delim]: the token
    returned (or NULL) and the new value of [save].  A call with a NULL
    first argument is a call on the previous [save]. *)
Definition strtok_r (s : list ascii) (delim : ascii)
  : option string * list ascii :=
  match skip_delim delim s with
  | [] => (None, [])
  | c :: r =>
      let '(t, rest) := take_token delim (c :: r) in
      (Some (string_of_list_ascii t), rest)
  end.

End Calls.

(** ** The program: [cmd.c] *)

Section Program.
Context {os : OS}.

(** Internal change-directory command. *)
Definition shell_cd (dir : option word_t) : M bool :=
  match dir with
  | None => ret true
  | Some d =>
      match next_word d with
      | Some _ => ret false
      | None =>
          res <- sys_chdir (w_string d) ;;
          if res =? 0 then ret true else ret false
      end
  end.

(** Internal exit/quit command. *)
Definition shell_exit : M Z := ret SHELL_EXIT.

Definition solve_redirection (s : simple_command_t) : M unit :=
  let append_or_trunc_out :=
    if negb (Z.land (io_flags s) IO_OUT_APPEND =? 0) then O_APPEND else O_TRUNC in
  let append_or_trunc_err :=
    if negb (Z.land (io_flags s) IO_ERR_APPEND =? 0) then O_APPEND else O_TRUNC in
  match s_in s with
  | Some {| w_string := Some path |} =>
      fd <- sys_open path O_RDONLY ;;
      DIE (fd =? -1) "in fd" ;;;
      sys_dup2 fd STDIN_FILENO ;;;
      sys_close fd ;;;
      ret tt
  | _ => ret tt
  end ;;;
  match s_out s with
  | Some {| w_string := Some path |} =>
      fd <- sys_open path (Z.lor (Z.lor O_CREAT O_WRONLY) append_or_trunc_out) ;;
      DIE (fd =? -1) "out fd" ;;;
      sys_dup2 fd STDOUT_FILENO ;;;
      sys_close fd ;;;
      ret tt
  | _ => ret tt
  end ;;;
  match s_err s with
  | Some {| w_string := Some path |} =>
      fd <- sys_open path (Z.lor (Z.lor O_CREAT O_WRONLY) append_or_trunc_err) ;;
      DIE (fd =? -1) "err fd" ;;;
      sys_dup2 fd STDERR_FILENO ;;;
      sys_close fd ;;;
      ret tt
  | _ => ret tt
  end ;;;
  match s_out s, s_err s with
  | Some o, Some e =>
      (* strcmp on a NULL string is undefined *)
      match w_string o, w_string e with
      | Some so, Some se =>
          if String.eqb so se
          then sys_dup2 STDOUT_FILENO STDERR_FILENO ;;; ret tt
          else ret tt
      | _, _ => undef
      end
  | _, _ => ret tt
  end.

Definition restore_redirection (saved_stdin saved_stdout saved_stderr : Z)
  : M unit :=
  sys_dup2 saved_stdin STDIN_FILENO ;;;
  sys_close saved_stdin ;;;
  sys_dup2 saved_stdout STDOUT_FILENO ;;;
  sys_close saved_stdout ;;;
  sys_dup2 saved_stderr STDERR_FILENO ;;;
  sys_close saved_stderr ;;;
  ret tt.

(** The child of [parse_simple]: the block under [if (pid == 0)]. *)
Definition exec_child (s : simple_command_t) (verb_string : string)
  : M Empty_set :=
  solve_redirection s ;;;
  args <- (fun p w => Ret (map (fun x => get_word x (env p)) (words (params s))) p w) ;;
  let commmand := verb_string :: args in
  res <- sys_execvp commmand ;;
  if res =? -1 then
    diag ("Execution failed for '" +:+ verb_string +:+ "'" +:+
          String (ascii_of_nat 10) "") ;;;
    exit EXIT_FAILURE
  else die "execvp".

(** Parse a simple command (internal, environment variable assignment,
    external command). *)
Definition parse_simple (s : option simple_command_t) (level : Z)
           (father : option command_t) : M Z :=
  match s with
  | None => ret (-1)
  | Some s =>
  match verb s with
  | None => undef                      (* s->verb->string on a NULL verb *)
  | Some v =>
  match w_string v with
  | None => ret (-1)
  | Some verb_string =>
      cmd <- getenv_word v ;;
      saved_stdin <- sys_dup STDIN_FILENO ;;
      saved_stdout <- sys_dup STDOUT_FILENO ;;
      saved_stderr <- sys_dup STDERR_FILENO ;;
      if String.eqb cmd "cd" then
        solve_redirection s ;;;
        res <- shell_cd (params s) ;;
        restore_redirection saved_stdin saved_stdout saved_stderr ;;;
        ret (if res : bool then 0 else 1)
      else if String.eqb cmd "exit" || String.eqb cmd "quit" then
        shell_exit
      else if strchr cmd "="%char then
        (* strdup is taken to succeed: copy_cmd != NULL *)
        let copy_cmd := list_ascii_of_string cmd in
        let '(name, save) := strtok_r copy_cmd "="%char in
        let '(value, _) := strtok_r save "="%char in
        match name, value with
        | Some name, Some value =>
            result <- setenv name value 1 ;;
            ret result
        | _, _ => ret (-1)
        end
      else
        pid <- sys_fork (exec_child s verb_string) ;;
        DIE (pid =? -1) "fork" ;;;
        waited <- sys_waitpid pid ;;
        let '(wait_ret, status) := waited in
        DIE (wait_ret <? 0) "waitpid" ;;;
        status <- read_status status ;;
        ret (WEXITSTATUS status)
  end end end.

(** The interpreter of a sub-tree, as the two executors below call it:
    [parse_command] applied to that sub-tree. *)
Definition interp : Type := Z -> option command_t -> M Z.

(** A child of [run_in_parallel]: [exit(parse_command(cmd, level + 1,
    father))]. *)
Definition parallel_child (cmd : interp) (level : Z)
           (father : option command_t) : M Empty_set :=
  r <- cmd (level + 1) father ;;
  exit r.

(** Process two commands in parallel, by creating two children. *)
Definition run_in_parallel (cmd1 cmd2 : interp) (level : Z)
           (father : option command_t) : M bool :=
  pid_cmd1 <- sys_fork (parallel_child cmd1 level father) ;;
  if pid_cmd1 =? -1 then ret false else
  pid_cmd2 <- sys_fork (parallel_child cmd2 level father) ;;
  if pid_cmd2 =? -1 then ret false else
  waited1 <- sys_waitpid pid_cmd1 ;;
  waited2 <- sys_waitpid pid_cmd2 ;;
  let status_cmd1 := snd waited1 in
  let status_cmd2 := snd waited2 in
  status_cmd2 <- read_status status_cmd2 ;;
  if WEXITSTATUS status_cmd2 =? 0 then
    status_cmd1 <- read_status status_cmd1 ;;
    ret (WEXITSTATUS status_cmd1 =? 0)
  else ret false.

Definition des (pipe_des : Z * Z) (i : nat) : Z :=
  match i with
  | O => fst pipe_des
  | _ => snd pipe_des
  end.

(** The first child of [run_on_pipe]: its standard output is the write end
    of the pipe. *)
Definition pipe_child1 (pipe_des : Z * Z) (cmd1 : interp) (level : Z)
           (father : option command_t) : M Empty_set :=
  sys_close (des pipe_des READ) ;;;
  sys_dup2 (des pipe_des WRITE) STDOUT_FILENO ;;;
  sys_close (des pipe_des WRITE) ;;;
  r <- cmd1 (level + 1) father ;;
  exit r.

(** The second child of [run_on_pipe]: its standard input is the read end of
    the pipe. *)
Definition pipe_child2 (pipe_des : Z * Z) (cmd2 : interp) (level : Z)
           (father : option command_t) : M Empty_set :=
  sys_close (des pipe_des WRITE) ;;;
  sys_dup2 (des pipe_des READ) STDIN_FILENO ;;;
  sys_close (des pipe_des READ) ;;;
  r <- cmd2 (level + 1) father ;;
  exit r.

(** Run commands by creating an anonymous pipe (cmd1 | cmd2). *)
Definition run_on_pipe (cmd1 cmd2 : interp) (level : Z)
           (father : option command_t) : M bool :=
  piped <- sys_pipe ;;
  let '(rc, pipe_des) := piped in
  DIE (rc <? 0) "pipe" ;;;
  pid_cmd1 <- sys_fork (pipe_child1 pipe_des cmd1 level father) ;;
  if pid_cmd1 =? -1 then
    rc <- sys_close (des pipe_des READ) ;;
    DIE (rc <? 0) "close" ;;;
    rc <- sys_close (des pipe_des WRITE) ;;
    DIE (rc <? 0) "close" ;;;
    DIE (negb (pid_cmd1 =? 0)) "fork" ;;;
    ret (negb (EXIT_FAILURE =? 0))
  else
  pid_cmd2 <- sys_fork (pipe_child2 pipe_des cmd2 level father) ;;
  if pid_cmd2 =? -1 then
    rc <- sys_close (des pipe_des READ) ;;
    DIE (rc <? 0) "close" ;;;
    rc <- sys_close (des pipe_des WRITE) ;;
    DIE (rc <? 0) "close" ;;;
    DIE (negb (pid_cmd2 =? 0)) "fork" ;;;
    ret (negb (EXIT_FAILURE =? 0))
  else
  sys_close (des pipe_des READ) ;;;
  sys_close (des pipe_des WRITE) ;;;
  waited1 <- sys_waitpid pid_cmd1 ;;
  waited2 <- sys_waitpid pid_cmd2 ;;
  let status_cmd1 := snd waited1 in
  let status_cmd2 := snd waited2 in
  status_cmd1 <- read_status status_cmd1 ;;
  if WEXITSTATUS status_cmd1 =? 0 then
    status_cmd2 <- read_status status_cmd2 ;;
    ret (WEXITSTATUS status_cmd2 =? 0)
  else ret false.

(** A [bool] returned where the caller expects an [int]. *)
Definition int_of_bool (b : bool) : Z := if b then 1 else 0.

(** Parse and execute a command: the body of [parse_command] for a
    non-NULL [c]. *)
Fixpoint parse_command_node (c : command_t) (level : Z)
         (father : option command_t) {struct c} : M Z :=
  match c with
  | mk_command o sc c1 c2 =>
      let on (sub : option command_t) : interp :=
        fun level father =>
          match sub with
          | None => ret 0
          | Some n => parse_command_node n level father
          end in
      match o with
      | OP_NONE => parse_simple sc level father
      | OP_SEQUENTIAL =>
          on c1 (level + 1) (Some c) ;;;
          on c2 (level + 1) (Some c)
      | OP_PARALLEL =>
          b <- run_in_parallel (on c1) (on c2) level (Some c) ;;
          ret (int_of_bool b)
      | OP_CONDITIONAL_NZERO =>
          r <- on c1 (level + 1) (Some c) ;;
          if negb (r =? 0) then on c2 (level + 1) (Some c) else ret 0
      | OP_CONDITIONAL_ZERO =>
          r <- on c1 (level + 1) (Some c) ;;
          if r =? 0 then on c2 (level + 1) (Some c) else ret 0
      | OP_PIPE =>
          b <- run_on_pipe (on c1) (on c2) level (Some c) ;;
          ret (int_of_bool b)
      | OP_DUMMY => ret SHELL_EXIT
      end
  end.

Definition parse_command (c : option command_t) : interp :=
  fun level father =>
    match c with
    | None => ret 0
    | Some n => parse_command_node n level father
    end.

End Program.

(** ** Vocabulary of the statements *)

(** Two process states that differ at most in their descriptor tables. *)
Definition same_but_fds (p p' : process) : Prop :=
  cwd p' = cwd p /\ env p' = env p /\ children p' = children p.

(** [l] holds no occurrence of the delimiter [d]. *)
Definition no_delim (d : ascii) (l : list ascii) : Prop :=
  existsb (Ascii.eqb d) l = false.

(** The process after [fd = open(...); dup2(fd, std); close(fd)]. *)
Definition redirected (std : Z) (p : process) (w : world) : process :=
  let fd := lowest_free (fds p) in
  let id := length (ofds w) in
  set_fds (delete fd (<[std := id]> (<[fd := id]> (fds p)))) p.

(** The world after a successful [open]. *)
Definition opened (path : string) (flags : Z) (ino : nat) (w : world) : world :=
  log (EvOpen path flags (Some ino)) (snd (new_ofd (OfdFile ino flags) w)).

(** The name and the value that [parse_simple] takes out of an assignment:
    the first two tokens that [strtok_r] finds between '=' signs. *)
Definition assignment_parts (cmd : string) : option (string * string) :=
  let '(name, save) := strtok_r (list_ascii_of_string cmd) "="%char in
  let '(value, _) := strtok_r save "="%char in
  match name, value with
  | Some name, Some value => Some (name, value)
  | _, _ => None
  end.

Definition is_chdir (e : event) : bool :=
  match e with
  | EvChdir _ _ => true
  | _ => false
  end.

(** From [w] to [w'] calls were made, none of them a [chdir]. *)
Definition no_chdir (w w' : world) : Prop :=
  exists evs, trace w' = evs ++ trace w /\ forallb (fun e => negb (is_chdir e)) evs = true.

(** [P] holds of the sub-tree [c], if there is one. *)
Definition on_sub (P : command_t -> Prop) (c : option command_t) : Prop :=
  match c with
  | Some n => P n
  | None => True
  end.

(** Process identifiers are handed out in increasing order: whatever [m]
    does, it leaves [next_pid] at least where it was. *)
Definition pid_mono {A} (m : M A) : Prop :=
  forall p w,
    match m p w with
    | Ret _ _ w' => next_pid w <= next_pid w'
    | Term _ w' => next_pid w <= next_pid w'
    | Undef => True
    end.

(** The process after [dup(oldfd)]: a second descriptor, the lowest free
    one, on the description of [oldfd]; unchanged when [oldfd] is closed. *)
Definition dup_to (oldfd : Z) (p : process) : process :=
  match fds p !! oldfd with
  | None => p
  | Some id => set_fds (<[lowest_free (fds p) := id]> (fds p)) p
  end.

(** The process after the three [dup] calls at the head of [parse_simple]. *)
Definition saved (p : process) : process :=
  dup_to STDERR_FILENO (dup_to STDOUT_FILENO (dup_to STDIN_FILENO p)).

(** The three standard descriptors are open. *)
Definition std_open (p : process) : Prop :=
  is_Some (fds p !! STDIN_FILENO) /\
  is_Some (fds p !! STDOUT_FILENO) /\
  is_Some (fds p !! STDERR_FILENO).

(** [k] is none of the three standard descriptors. *)
Definition not_std (k : Z) : Prop :=
  k <> STDIN_FILENO /\ k <> STDOUT_FILENO /\ k <> STDERR_FILENO.

(** A verb that is neither a built-in nor an assignment. *)
Definition external_verb (cmd : string) : Prop :=
  String.eqb cmd "cd" = false /\
  String.eqb cmd "exit" = false /\
  String.eqb cmd "quit" = false /\
  strchr cmd "="%char = false.

(** The world in which a child forked from [w] starts. *)
Definition fork_world (w : world) : world :=
  log (EvFork (next_pid w)) (mk_world (ofds w) (next_pid w + 1) (trace w)).

(** The world a program leaves that was executed in [w] and made the calls
    [evs]. *)
Definition exec_world (argv : list string) (evs : list event) (w : world)
  : world :=
  mk_world (ofds w) (next_pid w) (rev evs ++ EvExecvp argv true :: trace w).

Section ExternalVocabulary.
Context {os : OS}.

(** The argument vector [parse_simple] builds: the verb's own string, then
    the expansion of every parameter. *)
Definition argv_of (sc : simple_command_t) (verb_string : string)
           (e : gmap string string) : list string :=
  verb_string :: map (fun x => get_word x e) (words (params sc)).

(** The flags with which the output and the error target are opened. *)
Definition out_flags (s : simple_command_t) : Z :=
  Z.lor (Z.lor O_CREAT O_WRONLY)
        (if negb (Z.land (io_flags s) IO_OUT_APPEND =? 0)
         then O_APPEND else O_TRUNC).

Definition err_flags (s : simple_command_t) : Z :=
  Z.lor (Z.lor O_CREAT O_WRONLY)
        (if negb (Z.land (io_flags s) IO_ERR_APPEND =? 0)
         then O_APPEND else O_TRUNC).

End ExternalVocabulary.





Section InputVocabulary.
Context {os : OS}.


End InputVocabulary.

Section ResultPosition.
Context {os : OS}.

(** The sub-command whose value a tree returns is in "result position":
    the leaf itself, the right sub-tree of a SEQUENTIAL node, the right
    sub-tree of a conditional node whose left value selected it.
    [exits_last c level father p w p' w'] says that this sub-command is
    reached from [(p, w)] and yields the sentinel in [(p', w')]. *)
Inductive exits_last :
  option command_t -> Z -> option command_t ->
  process -> world -> process -> world -> Prop :=
| exits_leaf sc l r level father p w p' w' :
    parse_simple sc level father p w = Ret SHELL_EXIT p' w' ->
    exits_last (Some (mk_command OP_NONE sc l r)) level father p w p' w'
| exits_unknown sc l r level father p w :
    exits_last (Some (mk_command OP_DUMMY sc l r)) level father p w p w
| exits_sequential sc l r level father p w vl p1 w1 p' w' :
    let c := mk_command OP_SEQUENTIAL sc l r in
    parse_command l (level + 1) (Some c) p w = Ret vl p1 w1 ->
    exits_last r (level + 1) (Some c) p1 w1 p' w' ->
    exits_last (Some c) level father p w p' w'
| exits_nzero sc l r level father p w vl p1 w1 p' w' :
    let c := mk_command OP_CONDITIONAL_NZERO sc l r in
    parse_command l (level + 1) (Some c) p w = Ret vl p1 w1 ->
    vl <> 0 ->
    exits_last r (level + 1) (Some c) p1 w1 p' w' ->
    exits_last (Some c) level father p w p' w'
| exits_zero sc l r level father p w p1 w1 p' w' :
    let c := mk_command OP_CONDITIONAL_ZERO sc l r in
    parse_command l (level + 1) (Some c) p w = Ret 0 p1 w1 ->
    exits_last r (level + 1) (Some c) p1 w1 p' w' ->
    exits_last (Some c) level father p w p' w'.

End ResultPosition.

(** ** A small concrete system, to run the code on *)

Module Demo.

Definition open_table (path : string) (flags : Z) : option nat :=
  if String.eqb path "f" then Some 7%nat
  else if String.eqb path "./f" then Some 7%nat
  else if String.eqb path "g" then Some 8%nat
  else if negb (Z.land flags O_CREAT =? 0) then Some 9%nat
  else None.

Definition programs (argv : list string) : option (Z * list event) :=
  match argv with
  | [prog] =>
      if String.eqb prog "true" then Some (W_EXITCODE 0, [])
      else if String.eqb prog "false" then Some (W_EXITCODE 1, [])
      else None
  | _ => None
  end.

(** The sentinel is -100, descriptors are handed out and programs found as
    the two tables above say, only "/tmp" can be entered, and neither
    [fork] nor [pipe] runs out of resources. *)
Definition demo_os : OS :=
  {|
    SHELL_EXIT := -100;
    IO_OUT_APPEND := 1;
    IO_ERR_APPEND := 2;
    DIE_STATUS := EXIT_FAILURE;
    get_word := fun w _ => default "" (w_string w);
    os_open := fun _ _ path flags => open_table path flags;
    os_chdir := fun _ _ d => if String.eqb d "/tmp" then Some d else None;
    os_fork_fails := fun _ => false;
    os_pipe_fails := fun _ => false;
    os_execvp := fun _ _ argv => programs argv
  |}.

(** A shell with its three standard descriptors on the terminal. *)
Definition p0 : process :=
  mk_process "/" ∅ (<[0 := 0%nat]> (<[1 := 0%nat]> (<[2 := 0%nat]> ∅))) ∅.

Definition w0 : world := mk_world [OfdFile 0 2] 100 [].

Definition word (s : string) : word_t := mk_word (Some s) None None.

Definition word2 (s t : string) : word_t :=
  mk_word (Some s) None (Some (word t)).

Definition simple (v : string) (args : option word_t) : simple_command_t :=
  mk_simple (Some (word v)) args None None None 0.

Definition leaf (v : string) : option command_t :=
  Some (mk_command OP_NONE (Some (simple v None)) None None).

Definition node (o : operator_t) (l r : option command_t) : option command_t :=
  Some (mk_command o None l r).

Definition run (c : option command_t) : outcome Z :=
  parse_command (os := demo_os) c 0 None p0 w0.

Definition value {A} (o : outcome A) : option A :=
  match o with
  | Ret a _ _ => Some a
  | _ => None
  end.

End Demo.

(** ** Systems short of resources *)

Module Scarce.

(** The system of [Demo] where [fork] fails once [max_pid] has been
    reached. *)
Definition limited_os (max_pid : Z) : OS :=
  {|
    SHELL_EXIT := -100;
    IO_OUT_APPEND := 1;
    IO_ERR_APPEND := 2;
    DIE_STATUS := EXIT_FAILURE;
    get_word := fun w _ => default "" (w_string w);
    os_open := fun _ _ path flags => Demo.open_table path flags;
    os_chdir := fun _ _ d => if String.eqb d "/tmp" then Some d else None;
    os_fork_fails := fun w => max_pid <=? next_pid w;
    os_pipe_fails := fun _ => false;
    os_execvp := fun _ _ argv => Demo.programs argv
  |}.

(** The system of [Demo] where [pipe] always fails. *)
Definition no_pipe_os : OS :=
  {|
    SHELL_EXIT := -100;
    IO_OUT_APPEND := 1;
    IO_ERR_APPEND := 2;
    DIE_STATUS := EXIT_FAILURE;
    get_word := fun w _ => default "" (w_string w);
    os_open := fun _ _ path flags => Demo.open_table path flags;
    os_chdir := fun _ _ d => if String.eqb d "/tmp" then Some d else None;
    os_fork_fails := fun _ => false;
    os_pipe_fails := fun _ => true;
    os_execvp := fun _ _ argv => Demo.programs argv
  |}.

End Scarce.

(** * Properties *)

(** ** The tree interpreter: how [parse_command] unfolds at each operator *)

Section Interpreter.
Context {os : OS}.

Lemma bind_Ret {A B} (m : M A) (k : A -> M B) p w a p1 w1 :
  m p w = Ret a p1 w1 -> bind m k p w = k a p1 w1.
Proof. unfold bind. intros ->. reflexivity. Qed.

Lemma bind_inv {A B} (m : M A) (k : A -> M B) p w b p2 w2 :
  bind m k p w = Ret b p2 w2 ->
  exists a p1 w1, m p w = Ret a p1 w1 /\ k a p1 w1 = Ret b p2 w2.
Proof.
  unfold bind. destruct (m p w) as [a p1 w1| |]; try discriminate.
  intros H. exists a, p1, w1. split; [reflexivity | exact H].
Qed.

Lemma parse_command_sequential sc l r level father :
  let c := mk_command OP_SEQUENTIAL sc l r in
  parse_command (Some c) level father =
    (parse_command l (level + 1) (Some c) ;;;
     parse_command r (level + 1) (Some c)).
Proof. reflexivity. Qed.

Lemma parse_command_nzero sc l r level father :
  let c := mk_command OP_CONDITIONAL_NZERO sc l r in
  parse_command (Some c) level father =
    (v <- parse_command l (level + 1) (Some c) ;;
     if negb (v =? 0) then parse_command r (level + 1) (Some c) else ret 0).
Proof. reflexivity. Qed.

Lemma parse_command_zero sc l r level father :
  let c := mk_command OP_CONDITIONAL_ZERO sc l r in
  parse_command (Some c) level father =
    (v <- parse_command l (level + 1) (Some c) ;;
     if v =? 0 then parse_command r (level + 1) (Some c) else ret 0).
Proof. reflexivity. Qed.

Lemma parse_command_parallel sc l r level father :
  let c := mk_command OP_PARALLEL sc l r in
  parse_command (Some c) level father =
    (b <- run_in_parallel (parse_command l) (parse_command r) level (Some c) ;;
     ret (int_of_bool b)).
Proof. reflexivity. Qed.

Lemma parse_command_pipe sc l r level father :
  let c := mk_command OP_PIPE sc l r in
  parse_command (Some c) level father =
    (b <- run_on_pipe (parse_command l) (parse_command r) level (Some c) ;;
     ret (int_of_bool b)).
Proof. reflexivity. Qed.

Lemma parse_command_leaf sc l r level father :
  parse_command (Some (mk_command OP_NONE sc l r)) level father =
    parse_simple sc level father.
Proof. reflexivity. Qed.

(** C8. A SEQUENTIAL node evaluates its left sub-tree, drops the value it
    returned, whatever it was, and then evaluates the right sub-tree in the
    state the left one produced; what the right sub-tree gives is what the
    node gives. *)
Theorem sequential_returns_right sc l r level father p w vl p1 w1 :
  let c := mk_command OP_SEQUENTIAL sc l r in
  parse_command l (level + 1) (Some c) p w = Ret vl p1 w1 ->
  parse_command (Some c) level father p w =
    parse_command r (level + 1) (Some c) p1 w1.
Proof.
  intros c Hl. subst c. rewrite parse_command_sequential.
  apply (bind_Ret _ _ _ _ _ _ _ Hl).
Qed.

(** C4. A COND_IF_ZERO node whose left sub-tree returns 0 gives what the
    right sub-tree gives; when the left sub-tree returns a nonzero value the
    node returns 0 in exactly the state the left sub-tree produced, so the
    right sub-tree has not been evaluated. *)
Theorem cond_if_zero_result sc l r level father p w vl p1 w1 :
  let c := mk_command OP_CONDITIONAL_ZERO sc l r in
  parse_command l (level + 1) (Some c) p w = Ret vl p1 w1 ->
  (vl = 0 ->
   parse_command (Some c) level father p w =
     parse_command r (level + 1) (Some c) p1 w1) /\
  (vl <> 0 -> parse_command (Some c) level father p w = Ret 0 p1 w1).
Proof.
  intros c Hl. subst c. rewrite parse_command_zero.
  rewrite (bind_Ret _ _ _ _ _ _ _ Hl). split; intros Hv.
  - subst vl. reflexivity.
  - apply Z.eqb_neq in Hv. rewrite Hv. reflexivity.
Qed.

(** C9. A COND_IF_NONZERO node whose left sub-tree returns 0 returns 0 in
    exactly the state the left sub-tree produced (the right sub-tree is not
    evaluated); when the left sub-tree returns a nonzero value the node
    gives what the right sub-tree gives. *)
Theorem cond_if_nonzero_result sc l r level father p w vl p1 w1 :
  let c := mk_command OP_CONDITIONAL_NZERO sc l r in
  parse_command l (level + 1) (Some c) p w = Ret vl p1 w1 ->
  (vl = 0 -> parse_command (Some c) level father p w = Ret 0 p1 w1) /\
  (vl <> 0 ->
   parse_command (Some c) level father p w =
     parse_command r (level + 1) (Some c) p1 w1).
Proof.
  intros c Hl. subst c. rewrite parse_command_nzero.
  rewrite (bind_Ret _ _ _ _ _ _ _ Hl). split; intros Hv.
  - subst vl. reflexivity.
  - apply Z.eqb_neq in Hv. rewrite Hv. reflexivity.
Qed.

Lemma exits_last_returns c level father p w p' w' :
  exits_last c level father p w p' w' ->
  parse_command c level father p w = Ret SHELL_EXIT p' w'.
Proof.
  induction 1 as [sc l r level father p w p' w' Hs
                 |sc l r level father p w
                 |sc l r level father p w vl p1 w1 p' w' c Hl _ IH
                 |sc l r level father p w vl p1 w1 p' w' c Hl Hv _ IH
                 |sc l r level father p w p1 w1 p' w' c Hl _ IH].
  - rewrite parse_command_leaf. exact Hs.
  - reflexivity.
  - subst c. rewrite parse_command_sequential.
    rewrite (bind_Ret _ _ _ _ _ _ _ Hl). exact IH.
  - subst c. rewrite parse_command_nzero.
    rewrite (bind_Ret _ _ _ _ _ _ _ Hl).
    apply Z.eqb_neq in Hv. rewrite Hv. exact IH.
  - subst c. rewrite parse_command_zero.
    rewrite (bind_Ret _ _ _ _ _ _ _ Hl). exact IH.
Qed.

(** C3 (as amended). When the sub-command in result position yields the
    sentinel, the tree returns the sentinel unchanged, in the state that
    sub-command produced; a SEQUENTIAL node with such a tree as its left
    sub-tree does not return the sentinel but what its right sub-tree
    gives. *)
Theorem exit_sentinel_result_position
        c level father p w p' w' sc r lvl fth
        (H : exits_last c level father p w p' w') :
  parse_command c level father p w = Ret SHELL_EXIT p' w' /\
  let s := mk_command OP_SEQUENTIAL sc c r in
  (level = lvl + 1 -> father = Some s ->
   parse_command (Some s) lvl fth p w =
     parse_command r (lvl + 1) (Some s) p' w').
Proof.
  pose proof (exits_last_returns _ _ _ _ _ _ _ H) as E.
  split; [exact E|].
  intros s -> ->. subst s. rewrite parse_command_sequential.
  rewrite (bind_Ret _ _ _ _ _ _ _ E). reflexivity.
Qed.

End Interpreter.

(** ** The interpreter on concrete trees *)

Section InterpreterExamples.
Import Demo.
Local Existing Instance demo_os.

Lemma cond_if_zero_result_witness :
  let c := mk_command OP_CONDITIONAL_ZERO None (leaf "false") (leaf "true") in
  exists p1 w1,
    parse_command (leaf "false") 1 (Some c) p0 w0 = Ret 1 p1 w1 /\
    parse_command (Some c) 0 None p0 w0 = Ret 0 p1 w1.
Proof.
  intros c. eexists; eexists.
  assert (H : parse_command (leaf "false") (0 + 1) (Some c) p0 w0 = Ret 1 _ _)
    by (vm_compute; reflexivity).
  split; [exact H|].
  apply (cond_if_zero_result None (leaf "false") (leaf "true")
           0 None p0 w0 1 _ _ H).
  discriminate.
Defined.

(** [false ; exit]: the sentinel comes from the right sub-tree and is
    returned. *)
Lemma exit_sentinel_result_position_witness :
  let c := mk_command OP_SEQUENTIAL None (leaf "false") (leaf "exit") in
  exists p' w', parse_command (Some c) 0 None p0 w0 = Ret SHELL_EXIT p' w'.
Proof.
  intros c. eexists; eexists.
  refine (proj1 (exit_sentinel_result_position (Some c) 0 None p0 w0 _ _
                   None None 0 None _)).
  eapply (exits_sequential None (leaf "false") (leaf "exit") 0 None p0 w0 1).
  - vm_compute; reflexivity.
  - apply exits_leaf. vm_compute; reflexivity.
Defined.

(** C3 as stated fails: in [exit ; true] the left sub-tree yields the
    sentinel, and the tree returns 0, the status of [true]. *)
Lemma exit_sentinel_lost_in_sequential :
  let c := mk_command OP_SEQUENTIAL None (leaf "exit") (leaf "true") in
  value (parse_command (leaf "exit") 1 (Some c) p0 w0) = Some SHELL_EXIT /\
  value (parse_command (Some c) 0 None p0 w0) = Some 0 /\
  value (parse_command (Some c) 0 None p0 w0) <> Some SHELL_EXIT.
Proof.
  intros c. split; [|split].
  - vm_compute; reflexivity.
  - vm_compute; reflexivity.
  - vm_compute. discriminate.
Qed.

End InterpreterExamples.

(** ** Wait statuses *)

Lemma WEXITSTATUS_land status : WEXITSTATUS status = Z.land (Z.shiftr status 8) 255.
Proof. unfold WEXITSTATUS. rewrite Z.shiftr_land. reflexivity. Qed.

Lemma land_255 a : Z.land a 255 = a mod 256.
Proof. change 255 with (Z.ones 8). rewrite Z.land_ones by lia. reflexivity. Qed.

Lemma WEXITSTATUS_range status : 0 <= WEXITSTATUS status <= 255.
Proof.
  rewrite WEXITSTATUS_land, land_255.
  pose proof (Z.mod_pos_bound (Z.shiftr status 8) 256). lia.
Qed.

(** What the parent reads back from a child that called [exit(code)]. *)
Lemma WEXITSTATUS_W_EXITCODE code :
  WEXITSTATUS (W_EXITCODE code) = code mod 256.
Proof.
  rewrite WEXITSTATUS_land. unfold W_EXITCODE.
  rewrite Z.shiftr_shiftl_l by lia.
  replace (8 - 8) with 0 by lia. rewrite Z.shiftl_0_r.
  rewrite <- Z.land_assoc. change (Z.land 255 255) with 255. apply land_255.
Qed.

(** ** The descriptor table: the descriptor handed out is a free one *)

Lemma lowest_free_from_spec (t : gmap Z nat) fuel fd :
  t !! lowest_free_from t fuel fd = None \/
  (lowest_free_from t fuel fd = fd + Z.of_nat fuel /\
   forall i, fd <= i < fd + Z.of_nat fuel -> is_Some (t !! i)).
Proof.
  revert fd. induction fuel as [|k IH]; intros fd; simpl.
  - right. split; [lia|]. intros i Hi. lia.
  - destruct (t !! fd) as [x|] eqn:E.
    + destruct (IH (fd + 1)) as [H|[H1 H2]]; [left; exact H|].
      right. split; [lia|]. intros i Hi.
      destruct (decide (i = fd)) as [->|Hne].
      * rewrite E. eauto.
      * apply H2. lia.
    + left. exact E.
Qed.

Lemma full_prefix_is_dom (t : gmap Z nat) :
  (forall i, 0 <= i < Z.of_nat (size t) -> is_Some (t !! i)) ->
  t !! Z.of_nat (size t) = None.
Proof.
  intros Hfull.
  set (S := list_to_set (seqZ 0 (Z.of_nat (size t))) : gset Z).
  assert (Hsub : S ⊆ dom t).
  { intros i Hi. apply elem_of_list_to_set, elem_of_seqZ in Hi.
    apply elem_of_dom, Hfull. lia. }
  assert (Hsize : size S = size t).
  { unfold S. rewrite size_list_to_set by apply NoDup_seqZ.
    rewrite length_seqZ. lia. }
  assert (Heq : S = dom t).
  { apply set_subseteq_size_eq; [exact Hsub|]. rewrite size_dom. lia. }
  apply not_elem_of_dom. rewrite <- Heq. unfold S.
  rewrite elem_of_list_to_set, elem_of_seqZ. lia.
Qed.

Lemma lowest_free_is_free (t : gmap Z nat) : t !! lowest_free t = None.
Proof.
  unfold lowest_free.
  destruct (lowest_free_from_spec t (size t) 0) as [H|[H1 H2]]; [exact H|].
  rewrite H1. simpl. apply full_prefix_is_dom. intros i Hi. apply H2. lia.
Qed.

Lemma lowest_free_nonneg_from (t : gmap Z nat) fuel fd :
  fd <= lowest_free_from t fuel fd.
Proof.
  revert fd. induction fuel as [|k IH]; intros fd; simpl; [lia|].
  destruct (t !! fd); [|lia]. specialize (IH (fd + 1)). lia.
Qed.

Lemma lowest_free_nonneg (t : gmap Z nat) : 0 <= lowest_free t.
Proof. apply lowest_free_nonneg_from. Qed.

Lemma lowest_free_not_open (t : gmap Z nat) fd :
  is_Some (t !! fd) -> lowest_free t <> fd.
Proof.
  intros [x Hx] E. rewrite <- E in Hx.
  rewrite lowest_free_is_free in Hx. discriminate.
Qed.

(** ** Calls that only touch the descriptor table *)

Lemma same_but_fds_refl p : same_but_fds p p.
Proof. repeat split. Qed.

Lemma same_but_fds_trans p1 p2 p3 :
  same_but_fds p1 p2 -> same_but_fds p2 p3 -> same_but_fds p1 p3.
Proof. unfold same_but_fds. intros (?&?&?) (?&?&?). repeat split; congruence. Qed.

Lemma same_but_fds_set t p : same_but_fds p (set_fds t p).
Proof. repeat split. Qed.

Create HintDb cshell.
#[local] Hint Resolve same_but_fds_refl same_but_fds_set : cshell.

(** [inv_bind H as a E]: from [H : (x <- m ;; k x) p w = Ret ...] get the
    value [a] that [m] returned, [E : m p w = Ret a ...] and [H] for [k a]. *)
Tactic Notation "inv_bind" ident(H) "as" ident(a) ident(E) :=
  let p := fresh "p" in
  let w := fresh "w" in
  let H' := fresh "H" in
  apply bind_inv in H; destruct H as (a & p & w & E & H'); rename H' into H.

(** The same, naming the state [(p, w)] in which [m] returned. *)
Tactic Notation "inv_bind" ident(H) "as" ident(a) ident(E) "at" ident(p) ident(w) :=
  let H' := fresh "H" in
  apply bind_inv in H; destruct H as (a & p & w & E & H'); rename H' into H.

Ltac inv_ret H := unfold ret in H; inversion H; subst; clear H.

Section DescriptorCalls.
Context {os : OS}.

Lemma sys_dup_inv fd p w a p' w' :
  sys_dup fd p w = Ret a p' w' -> same_but_fds p p' /\ w' = w.
Proof.
  unfold sys_dup. destruct (fds p !! fd); intros H; inversion H; subst;
    auto with cshell.
Qed.

Lemma sys_dup2_inv oldfd newfd p w a p' w' :
  sys_dup2 oldfd newfd p w = Ret a p' w' -> same_but_fds p p' /\ w' = w.
Proof.
  unfold sys_dup2. destruct (fds p !! oldfd); [destruct (newfd <? 0)|];
    intros H; inversion H; subst; auto with cshell.
Qed.

Lemma sys_close_inv fd p w a p' w' :
  sys_close fd p w = Ret a p' w' -> same_but_fds p p' /\ w' = w.
Proof.
  unfold sys_close. destruct (fds p !! fd); intros H; inversion H; subst;
    auto with cshell.
Qed.

Lemma DIE_inv b msg p w u p' w' :
  DIE b msg p w = Ret u p' w' -> b = false /\ p' = p /\ w' = w.
Proof.
  unfold DIE. destruct b; [discriminate|]. intros H. inv_ret H. auto.
Qed.

Lemma restore_redirection_inv a b c p w u p' w' :
  restore_redirection a b c p w = Ret u p' w' ->
  same_but_fds p p' /\ w' = w.
Proof.
  unfold restore_redirection. intros H.
  repeat match type of H with
         | bind (sys_dup2 _ _) _ _ _ = _ =>
             let E := fresh "E" in
             apply bind_inv in H; destruct H as (? & ? & ? & E & H);
             apply sys_dup2_inv in E; destruct E as [? ->]
         | bind (sys_close _) _ _ _ = _ =>
             let E := fresh "E" in
             apply bind_inv in H; destruct H as (? & ? & ? & E & H);
             apply sys_close_inv in E; destruct E as [? ->]
         end.
  inv_ret H. split; [|reflexivity].
  repeat (eapply same_but_fds_trans; [eassumption|]).
  apply same_but_fds_refl.
Qed.

Lemma setenv_result name value overwrite p w r p' w' :
  setenv name value overwrite p w = Ret r p' w' -> r = 0 \/ r = -1.
Proof.
  unfold setenv.
  destruct (name_ok name); [destruct (env p !! name); [destruct (overwrite =? 0)|]|];
    intros H; inversion H; auto.
Qed.

End DescriptorCalls.

(** ** Splitting an assignment with [strtok_r] *)

Lemma list_ascii_of_string_app (a b : string) :
  list_ascii_of_string (a +:+ b) =
    list_ascii_of_string a ++ list_ascii_of_string b.
Proof. induction a as [|c a IH]; simpl; [reflexivity|]. rewrite IH. reflexivity. Qed.

Lemma list_ascii_of_string_nil (a : string) :
  list_ascii_of_string a = [] -> a = "".
Proof. destruct a; [reflexivity|discriminate]. Qed.

Section Strtok.

Lemma take_token_end d l : no_delim d l -> take_token d l = (l, []).
Proof.
  unfold no_delim. induction l as [|c l IH]; simpl; [reflexivity|].
  intros H. apply orb_false_iff in H as [Hc Hl].
  rewrite Ascii.eqb_sym, Hc, (IH Hl). reflexivity.
Qed.

Lemma take_token_delim d l r :
  no_delim d l -> take_token d (l ++ d :: r) = (l, r).
Proof.
  unfold no_delim. induction l as [|c l IH]; simpl.
  - intros _. rewrite Ascii.eqb_refl. reflexivity.
  - intros H. apply orb_false_iff in H as [Hc Hl].
    rewrite Ascii.eqb_sym, Hc, (IH Hl). reflexivity.
Qed.

Lemma skip_delim_token d l r :
  no_delim d l -> l <> [] -> skip_delim d (l ++ r) = l ++ r.
Proof.
  unfold no_delim. destruct l as [|c l]; [congruence|]. simpl.
  intros H _. apply orb_false_iff in H as [Hc _].
  rewrite Ascii.eqb_sym, Hc. reflexivity.
Qed.

Lemma strtok_r_token d l :
  l <> [] -> skip_delim d l = l ->
  strtok_r l d =
    (Some (string_of_list_ascii (fst (take_token d l))), snd (take_token d l)).
Proof.
  intros Hne Hs. unfold strtok_r. rewrite Hs.
  destruct l as [|c r]; [congruence|].
  destruct (take_token d (c :: r)). reflexivity.
Qed.

(** A non-empty token followed by a delimiter. *)
Lemma strtok_r_delim d l r :
  no_delim d l -> l <> [] ->
  strtok_r (l ++ d :: r) d = (Some (string_of_list_ascii l), r).
Proof.
  intros Hl Hne. rewrite strtok_r_token.
  - rewrite (take_token_delim d _ r Hl). reflexivity.
  - destruct l; [congruence|discriminate].
  - apply (skip_delim_token d l _ Hl Hne).
Qed.

(** A non-empty token that runs to the end of the string. *)
Lemma strtok_r_end d l :
  no_delim d l -> l <> [] ->
  strtok_r l d = (Some (string_of_list_ascii l), []).
Proof.
  intros Hl Hne. rewrite strtok_r_token.
  - rewrite (take_token_end d _ Hl). reflexivity.
  - exact Hne.
  - rewrite <- (app_nil_r l). apply (skip_delim_token d l _ Hl Hne).
Qed.

Lemma strtok_r_nil d : strtok_r [] d = (None, []).
Proof. reflexivity. Qed.

Lemma strchr_no_delim s d : strchr s d = false -> no_delim d (list_ascii_of_string s).
Proof. intros H. exact H. Qed.

Lemma strchr_app_delim a b d : strchr (a +:+ String d b) d = true.
Proof.
  unfold strchr. rewrite list_ascii_of_string_app, existsb_app. simpl.
  rewrite Ascii.eqb_refl. apply orb_true_iff. right. reflexivity.
Qed.

Lemma strchr_differs cmd s d :
  strchr cmd d = true -> strchr s d = false -> String.eqb cmd s = false.
Proof.
  intros H1 H2. destruct (String.eqb_spec cmd s) as [->|]; congruence.
Qed.

Lemma name_ok_token name :
  name <> "" -> strchr name "=" = false -> name_ok name = true.
Proof.
  intros Hne Hno. unfold name_ok. unfold strchr in Hno. rewrite Hno.
  destruct (String.eqb_spec name ""); [congruence|reflexivity].
Qed.

End Strtok.

(** ** The simple-command executor: assignments *)

Section Assignment.
Context {os : OS}.

Lemma sys_dup_total fd p w :
  exists a p', sys_dup fd p w = Ret a p' w /\ same_but_fds p p'.
Proof.
  unfold sys_dup. destruct (fds p !! fd); eauto with cshell.
Qed.

(** The three [dup] calls at the head of [parse_simple] always return and
    change nothing but the descriptor table. *)
Lemma saved_descriptors p w :
  exists a b c pd,
    same_but_fds p pd /\
    forall B (k : Z -> Z -> Z -> M B),
      (x <- sys_dup STDIN_FILENO ;;
       y <- sys_dup STDOUT_FILENO ;;
       z <- sys_dup STDERR_FILENO ;;
       k x y z) p w = k a b c pd w.
Proof.
  destruct (sys_dup_total STDIN_FILENO p w) as (a & p1 & E1 & S1).
  destruct (sys_dup_total STDOUT_FILENO p1 w) as (b & p2 & E2 & S2).
  destruct (sys_dup_total STDERR_FILENO p2 w) as (c & p3 & E3 & S3).
  exists a, b, c, p3. split.
  - eauto using same_but_fds_trans.
  - intros B k. unfold bind. rewrite E1, E2, E3. reflexivity.
Qed.

Lemma bind_ret_r {A} (m : M A) p w : bind m (fun x => ret x) p w = m p w.
Proof. unfold bind. destruct (m p w); reflexivity. Qed.

(** The assignment branch of [parse_simple], reached by every verb that
    holds an '='. *)
Lemma parse_simple_assignment sc vb vs level father p w :
  verb sc = Some vb ->
  w_string vb = Some vs ->
  strchr (get_word vb (env p)) "=" = true ->
  exists pd,
    same_but_fds p pd /\
    parse_simple (Some sc) level father p w =
      match assignment_parts (get_word vb (env p)) with
      | Some (name, value) => setenv name value 1 pd w
      | None => Ret (-1) pd w
      end.
Proof.
  intros Hverb Hstr Hhas.
  destruct (saved_descriptors p w) as (a & b & c & pd & Hsame & Hdups).
  exists pd. split; [exact Hsame|].
  unfold parse_simple. rewrite Hverb, Hstr.
  unfold bind at 1. unfold getenv_word. rewrite Hdups.
  rewrite (strchr_differs _ "cd" _ Hhas eq_refl).
  rewrite (strchr_differs _ "exit" _ Hhas eq_refl).
  rewrite (strchr_differs _ "quit" _ Hhas eq_refl).
  simpl orb. cbv iota. rewrite Hhas. unfold assignment_parts.
  destruct (strtok_r (list_ascii_of_string (get_word vb (env p))) "=")
    as [[name|] save];
    destruct (strtok_r save "=") as [[value|] save']; try reflexivity.
  apply bind_ret_r.
Qed.

End Assignment.

(** ** The simple-command executor: the values it returns *)

Section SimpleRange.
Context {os : OS}.

(** C5 (as amended). Whatever [parse_simple] returns is an exit status
    between 0 and 255, the sentinel, or -1; a null command, a null verb
    string and an assignment whose split gives no name or no value all
    give -1. *)
Theorem parse_simple_result_range s level father p w v p' w'
        (H : parse_simple s level father p w = Ret v p' w') :
  (0 <= v <= 255 \/ v = SHELL_EXIT \/ v = -1) /\
  (s = None -> v = -1) /\
  (forall sc vb, s = Some sc -> verb sc = Some vb -> w_string vb = None ->
                 v = -1) /\
  (forall sc vb vs, s = Some sc -> verb sc = Some vb ->
                    w_string vb = Some vs ->
                    strchr (get_word vb (env p)) "=" = true ->
                    assignment_parts (get_word vb (env p)) = None ->
                    v = -1).
Proof.
  split; [|split; [|split]].
  - unfold parse_simple in H.
    destruct s as [sc|]; [|inv_ret H; auto].
    destruct (verb sc) as [vb|]; [|discriminate].
    destruct (w_string vb) as [vs|]; [|inv_ret H; auto].
    inv_bind H as cmd Ecmd. inv_bind H as saved_stdin E0.
    inv_bind H as saved_stdout E1. inv_bind H as saved_stderr E2.
    destruct (String.eqb cmd "cd").
    { inv_bind H as u Er. inv_bind H as res Ecd. inv_bind H as u' Eb.
      inv_ret H. left. destruct res; lia. }
    destruct (String.eqb cmd "exit" || String.eqb cmd "quit").
    { inv_ret H. auto. }
    destruct (strchr cmd "=").
    { destruct (strtok_r (list_ascii_of_string cmd) "=") as [name save].
      destruct (strtok_r save "=") as [value save'].
      destruct name as [name|]; [destruct value as [value|]|];
        try solve [inv_ret H; auto].
      inv_bind H as result Eset. inv_ret H.
      destruct (setenv_result _ _ _ _ _ _ _ _ Eset) as [->| ->];
        [left; lia|auto]. }
    inv_bind H as pid Efork. inv_bind H as u Edie.
    inv_bind H as waited Ewait. destruct waited as [wait_ret status].
    inv_bind H as u' Edie'. inv_bind H as st Est.
    inv_ret H. left. apply WEXITSTATUS_range.
  - intros ->. inv_ret H. reflexivity.
  - intros sc vb -> Hv Hs. unfold parse_simple in H. rewrite Hv, Hs in H.
    inv_ret H. reflexivity.
  - intros sc vb vs -> Hv Hs Hhas Hnone.
    destruct (parse_simple_assignment sc vb vs level father p w Hv Hs Hhas)
      as (pd & _ & Hrun).
    rewrite Hnone, H in Hrun. inversion Hrun. reflexivity.
Qed.

End SimpleRange.

(** ** The redirection manager *)

Section Redirection.
Context {os : OS}.

Lemma redirect_inv path flags std msg p w u p' w' :
  0 <= std ->
  (fd <- sys_open path flags ;;
   DIE (fd =? -1) msg ;;;
   sys_dup2 fd std ;;;
   sys_close fd ;;;
   ret tt) p w = Ret u p' w' ->
  exists ino,
    os_open w (cwd p) path flags = Some ino /\
    p' = redirected std p w /\
    w' = opened path flags ino w.
Proof.
  intros Hstd. unfold bind at 1. unfold sys_open.
  destruct (os_open w (cwd p) path flags) as [ino|]; [|discriminate].
  simpl. pose proof (lowest_free_nonneg (fds p)) as Hfd.
  set (fd := lowest_free (fds p)) in *.
  set (id := length (ofds w)).
  replace (fd =? -1) with false by (symmetry; apply Z.eqb_neq; lia).
  unfold bind, DIE, ret, sys_dup2, sys_close. simpl.
  rewrite lookup_insert_eq.
  replace (std <? 0) with false by (symmetry; apply Z.ltb_ge; lia).
  simpl.
  assert (E : <[std := id]> (<[fd := id]> (fds p)) !! fd = Some id).
  { destruct (decide (std = fd)) as [->|Hne].
    - apply lookup_insert_eq.
    - rewrite lookup_insert_ne by exact Hne. apply lookup_insert_eq. }
  rewrite E. intros H. inversion H; subst. exists ino. auto.
Qed.

(** One of the three optional blocks of [solve_redirection]. *)
Lemma redirect_opt_inv (t : option word_t) flags std msg p w u p' w' :
  0 <= std ->
  match t with
  | Some {| w_string := Some path |} =>
      fd <- sys_open path flags ;;
      DIE (fd =? -1) msg ;;;
      sys_dup2 fd std ;;;
      sys_close fd ;;;
      ret tt
  | _ => ret tt
  end p w = Ret u p' w' ->
  (p' = p /\ w' = w /\ (forall x, t = Some x -> w_string x = None)) \/
  (exists x path ino,
      t = Some x /\ w_string x = Some path /\
      os_open w (cwd p) path flags = Some ino /\
      p' = redirected std p w /\ w' = opened path flags ino w).
Proof.
  intros Hstd H. destruct t as [[[path|] np nw]|].
  - right. apply (redirect_inv _ _ _ _ _ _ _ _ _ Hstd) in H.
    destruct H as (ino & Ho & -> & ->). exists (mk_word (Some path) np nw), path, ino.
    auto.
  - left. inv_ret H. repeat split. intros x [= <-]. reflexivity.
  - left. inv_ret H. repeat split. intros x [=].
Qed.

Lemma redirected_same std p w : same_but_fds p (redirected std p w).
Proof. apply same_but_fds_set. Qed.

Lemma redirected_lookup_std std p w :
  is_Some (fds p !! std) ->
  fds (redirected std p w) !! std = Some (length (ofds w)).
Proof.
  intros Hopen. unfold redirected. simpl.
  rewrite lookup_delete_ne by (apply lowest_free_not_open, Hopen).
  apply lookup_insert_eq.
Qed.

Lemma redirected_lookup_other std k p w :
  k <> std -> is_Some (fds p !! k) ->
  fds (redirected std p w) !! k = fds p !! k.
Proof.
  intros Hne Hopen. unfold redirected. simpl.
  pose proof (lowest_free_not_open _ _ Hopen) as Hfd.
  rewrite lookup_delete_ne by exact Hfd.
  rewrite lookup_insert_ne by congruence.
  rewrite lookup_insert_ne by exact Hfd. reflexivity.
Qed.


Lemma opened_ofds path flags ino w :
  ofds (opened path flags ino w) = ofds w ++ [OfdFile ino flags].
Proof. reflexivity. Qed.

Lemma opened_trace path flags ino w :
  trace (opened path flags ino w) = EvOpen path flags (Some ino) :: trace w.
Proof. reflexivity. Qed.

End Redirection.

(** ** The redirection manager: output and error on the same path *)

Section SamePath.
Context {os : OS}.

Lemma solve_redirection_inv s p w u p' w' :
  solve_redirection s p w = Ret u p' w' ->
  exists p1 w1 p2 w2 p3 w3,
    ((p1 = p /\ w1 = w /\ (forall x, s_in s = Some x -> w_string x = None)) \/
     (exists x path ino,
         s_in s = Some x /\ w_string x = Some path /\
         os_open w (cwd p) path O_RDONLY = Some ino /\
         p1 = redirected STDIN_FILENO p w /\ w1 = opened path O_RDONLY ino w)) /\
    ((p2 = p1 /\ w2 = w1 /\ (forall x, s_out s = Some x -> w_string x = None)) \/
     (exists x path ino flags,
         s_out s = Some x /\ w_string x = Some path /\
         os_open w1 (cwd p1) path flags = Some ino /\
         p2 = redirected STDOUT_FILENO p1 w1 /\ w2 = opened path flags ino w1)) /\
    ((p3 = p2 /\ w3 = w2 /\ (forall x, s_err s = Some x -> w_string x = None)) \/
     (exists x path ino flags,
         s_err s = Some x /\ w_string x = Some path /\
         os_open w2 (cwd p2) path flags = Some ino /\
         p3 = redirected STDERR_FILENO p2 w2 /\ w3 = opened path flags ino w2)) /\
    match s_out s, s_err s with
    | Some o, Some e =>
        match w_string o, w_string e with
        | Some so, Some se =>
            if String.eqb so se
            then sys_dup2 STDOUT_FILENO STDERR_FILENO ;;; ret tt
            else ret tt
        | _, _ => undef
        end
    | _, _ => ret tt
    end p3 w3 = Ret u p' w'.
Proof.
  unfold solve_redirection. intros H.
  inv_bind H as u1 Hin at p1 w1. inv_bind H as u2 Hout at p2 w2.
  inv_bind H as u3 Herr at p3 w3.
  exists p1, w1, p2, w2, p3, w3.
  apply redirect_opt_inv in Hin; [|unfold STDIN_FILENO; lia].
  apply redirect_opt_inv in Hout; [|unfold STDOUT_FILENO; lia].
  apply redirect_opt_inv in Herr; [|unfold STDERR_FILENO; lia].
  split; [exact Hin|]. split; [|split; [|exact H]].
  - destruct Hout as [Hl|(x & path & ino & Hr)]; [left; exact Hl|].
    right. exists x, path, ino. eexists. exact Hr.
  - destruct Herr as [Hl|(x & path & ino & Hr)]; [left; exact Hl|].
    right. exists x, path, ino. eexists. exact Hr.
Qed.

End SamePath.

(** ** The built-in [cd] *)

Section Cd.
Context {os : OS}.

Lemma no_chdir_refl w : no_chdir w w.
Proof. exists []. split; reflexivity. Qed.

Lemma no_chdir_trans w1 w2 w3 :
  no_chdir w1 w2 -> no_chdir w2 w3 -> no_chdir w1 w3.
Proof.
  intros (e1 & T1 & F1) (e2 & T2 & F2). exists (e2 ++ e1). split.
  - rewrite T2, T1, app_assoc. reflexivity.
  - rewrite forallb_app, F1, F2. reflexivity.
Qed.

Lemma no_chdir_opened path flags ino w : no_chdir w (opened path flags ino w).
Proof. exists [EvOpen path flags (Some ino)]. split; reflexivity. Qed.

(** Redirection opens files and moves descriptors; it makes no other call. *)
Lemma solve_redirection_frame s p w u p' w' :
  solve_redirection s p w = Ret u p' w' ->
  same_but_fds p p' /\ no_chdir w w'.
Proof.
  intros H. apply solve_redirection_inv in H.
  destruct H as (p1 & w1 & p2 & w2 & p3 & w3 & Hin & Hout & Herr & H).
  assert (H1 : same_but_fds p p1 /\ no_chdir w w1).
  { destruct Hin as [(-> & -> & _)|(x & path & ino & _ & _ & _ & -> & ->)].
    - split; [apply same_but_fds_refl|apply no_chdir_refl].
    - split; [apply redirected_same|apply no_chdir_opened]. }
  assert (H2 : same_but_fds p1 p2 /\ no_chdir w1 w2).
  { destruct Hout as [(-> & -> & _)|(x & path & ino & fl & _ & _ & _ & -> & ->)].
    - split; [apply same_but_fds_refl|apply no_chdir_refl].
    - split; [apply redirected_same|apply no_chdir_opened]. }
  assert (H3 : same_but_fds p2 p3 /\ no_chdir w2 w3).
  { destruct Herr as [(-> & -> & _)|(x & path & ino & fl & _ & _ & _ & -> & ->)].
    - split; [apply same_but_fds_refl|apply no_chdir_refl].
    - split; [apply redirected_same|apply no_chdir_opened]. }
  assert (H4 : same_but_fds p3 p' /\ w' = w3).
  { destruct (s_out s) as [o|]; [destruct (s_err s) as [e|]|];
      try (inv_ret H; split; [apply same_but_fds_refl|reflexivity]).
    destruct (w_string o) as [so|]; [destruct (w_string e) as [se|]|];
      try discriminate.
    destruct (String.eqb so se);
      [|inv_ret H; split; [apply same_but_fds_refl|reflexivity]].
    inv_bind H as r E. inv_ret H. apply (sys_dup2_inv _ _ _ _ _ _ _ E). }
  destruct H1 as [S1 N1], H2 as [S2 N2], H3 as [S3 N3], H4 as [S4 ->].
  split.
  - eauto using same_but_fds_trans.
  - eauto using no_chdir_trans.
Qed.

Lemma word_chain_cons (d : word_t) :
  word_chain d = d :: words (next_word d).
Proof. destruct d as [s np [n|]]; reflexivity. Qed.

Lemma sys_dup2_total a b p w : exists r p', sys_dup2 a b p w = Ret r p' w.
Proof.
  unfold sys_dup2. destruct (fds p !! a); [destruct (b <? 0)|]; eauto.
Qed.

Lemma sys_close_returns fd p w : exists r p', sys_close fd p w = Ret r p' w.
Proof. unfold sys_close. destruct (fds p !! fd); eauto. Qed.

Lemma restore_redirection_total a b c p w :
  exists p', restore_redirection a b c p w = Ret tt p' w.
Proof.
  unfold restore_redirection.
  destruct (sys_dup2_total a STDIN_FILENO p w) as (r1 & p1 & E1).
  destruct (sys_close_returns a p1 w) as (r2 & p2 & E2).
  destruct (sys_dup2_total b STDOUT_FILENO p2 w) as (r3 & p3 & E3).
  destruct (sys_close_returns b p3 w) as (r4 & p4 & E4).
  destruct (sys_dup2_total c STDERR_FILENO p4 w) as (r5 & p5 & E5).
  destruct (sys_close_returns c p5 w) as (r6 & p6 & E6).
  exists p6. unfold bind. rewrite E1, E2, E3, E4, E5, E6. reflexivity.
Qed.

Lemma shell_cd_total d p w : exists b p' w', shell_cd d p w = Ret b p' w'.
Proof.
  unfold shell_cd. destruct d as [d|]; [|unfold ret; eauto].
  destruct (next_word d); [unfold ret; eauto|].
  unfold bind, sys_chdir.
  destruct (w_string d) as [path|]; [destruct (os_chdir w (cwd p) path)|];
    simpl; unfold ret; eauto.
Qed.

(** X21. Without redirection targets nothing in [cd] can be fatal: the
    command always returns. *)
Lemma cd_returns sc vb vs level father p w :
  verb sc = Some vb ->
  w_string vb = Some vs ->
  get_word vb (env p) = "cd" ->
  s_in sc = None -> s_out sc = None -> s_err sc = None ->
  exists r p' w', parse_simple (Some sc) level father p w = Ret r p' w'.
Proof.
  intros Hverb Hstr Hcmd Hin Hout Herr.
  destruct (saved_descriptors p w) as (a & b & c & pd & Hsame & Hdups).
  assert (Hred : solve_redirection sc pd w = Ret tt pd w).
  { unfold solve_redirection. rewrite Hin, Hout, Herr. reflexivity. }
  destruct (shell_cd_total (params sc) pd w) as (res & p1 & w1 & Hcd).
  destruct (restore_redirection_total a b c p1 w1) as (p2 & Hback).
  exists (if res then 0 else 1), p2, w1.
  unfold parse_simple. rewrite Hverb, Hstr.
  unfold bind at 1. unfold getenv_word. rewrite Hdups, Hcmd.
  change (String.eqb "cd" "cd") with true. cbv iota.
  rewrite (bind_Ret _ _ _ _ _ _ _ Hred).
  rewrite (bind_Ret _ _ _ _ _ _ _ Hcd).
  rewrite (bind_Ret _ _ _ _ _ _ _ Hback). reflexivity.
Qed.

End Cd.

(** ** Process identifiers only grow *)

(** Induction on command trees, whose sub-trees sit under [option]. *)
Lemma command_t_induction (P : command_t -> Prop) :
  (forall o sc c1 c2, on_sub P c1 -> on_sub P c2 -> P (mk_command o sc c1 c2)) ->
  forall c, P c.
Proof.
  intros step.
  refine (fix IH (c : command_t) : P c :=
            match c with
            | mk_command o sc c1 c2 =>
                step o sc c1 c2
                     (match c1 return on_sub P c1 with
                      | Some n => IH n
                      | None => I
                      end)
                     (match c2 return on_sub P c2 with
                      | Some n => IH n
                      | None => I
                      end)
            end).
Qed.

Section PidMono.
Context {os : OS}.

Lemma pid_mono_ret {A} (a : A) : pid_mono (ret a).
Proof. intros p w. simpl. lia. Qed.

Lemma pid_mono_undef {A} : pid_mono (@undef A).
Proof. intros p w. exact I. Qed.

Lemma pid_mono_bind {A B} (m : M A) (k : A -> M B) :
  pid_mono m -> (forall a, pid_mono (k a)) -> pid_mono (bind m k).
Proof.
  intros Hm Hk p w. unfold bind. specialize (Hm p w).
  destruct (m p w) as [a p1 w1|st w1|]; [|exact Hm|exact I].
  specialize (Hk a p1 w1). destruct (k a p1 w1); first [lia|exact I].
Qed.

Lemma pid_mono_exit {A} code : pid_mono (@exit A code).
Proof. intros p w. simpl. lia. Qed.

Lemma pid_mono_diag msg : pid_mono (diag msg).
Proof. intros p w. simpl. lia. Qed.

Lemma pid_mono_die {A} msg : pid_mono (@die os A msg).
Proof. apply pid_mono_bind; [apply pid_mono_diag|intros _; apply pid_mono_exit]. Qed.

Lemma pid_mono_DIE b msg : pid_mono (DIE b msg).
Proof. destruct b; [apply pid_mono_die|apply pid_mono_ret]. Qed.

Lemma pid_mono_sys_open path flags : pid_mono (sys_open path flags).
Proof.
  intros p w. unfold sys_open.
  destruct (os_open w (cwd p) path flags); simpl; lia.
Qed.

Lemma pid_mono_sys_dup fd : pid_mono (sys_dup fd).
Proof. intros p w. unfold sys_dup. destruct (fds p !! fd); simpl; lia. Qed.

Lemma pid_mono_sys_dup2 a b : pid_mono (sys_dup2 a b).
Proof.
  intros p w. unfold sys_dup2.
  destruct (fds p !! a); [destruct (b <? 0)|]; simpl; lia.
Qed.

Lemma pid_mono_sys_close fd : pid_mono (sys_close fd).
Proof. intros p w. unfold sys_close. destruct (fds p !! fd); simpl; lia. Qed.

Lemma pid_mono_sys_chdir path : pid_mono (sys_chdir path).
Proof.
  intros p w. unfold sys_chdir.
  destruct path as [d|]; [destruct (os_chdir w (cwd p) d)|]; simpl; lia.
Qed.

Lemma pid_mono_sys_pipe : pid_mono sys_pipe.
Proof. intros p w. unfold sys_pipe. destruct (os_pipe_fails w); simpl; lia. Qed.

Lemma pid_mono_sys_fork child : pid_mono child -> pid_mono (sys_fork child).
Proof.
  intros Hc p w. unfold sys_fork. destruct (os_fork_fails w); [simpl; lia|].
  set (q := set_children ∅ p).
  set (v := log (EvFork (next_pid w)) _).
  specialize (Hc q v). destruct (child q v) as [[]|st w1|]; [|exact I].
  simpl in Hc. lia.
Qed.

Lemma pid_mono_sys_waitpid pid : pid_mono (sys_waitpid pid).
Proof. intros p w. unfold sys_waitpid. destruct (children p !! pid); simpl; lia. Qed.

Lemma pid_mono_read_status st : pid_mono (read_status st).
Proof. destruct st; [apply pid_mono_ret|apply pid_mono_undef]. Qed.

Lemma pid_mono_sys_execvp argv : pid_mono (sys_execvp argv).
Proof.
  intros p w. unfold sys_execvp.
  destruct (os_execvp w p argv) as [[st evs]|]; simpl; lia.
Qed.

Lemma pid_mono_setenv n v o : pid_mono (setenv n v o).
Proof.
  intros p w. unfold setenv.
  destruct (name_ok n); [destruct (env p !! n); [destruct (o =? 0)|]|];
    simpl; lia.
Qed.

Lemma pid_mono_getenv_word v : pid_mono (getenv_word v).
Proof. intros p w. simpl. lia. Qed.

End PidMono.

#[local] Hint Resolve
  pid_mono_ret pid_mono_undef pid_mono_exit pid_mono_diag pid_mono_die
  pid_mono_DIE pid_mono_sys_open pid_mono_sys_dup pid_mono_sys_dup2
  pid_mono_sys_close pid_mono_sys_chdir pid_mono_sys_pipe
  pid_mono_sys_waitpid pid_mono_read_status pid_mono_sys_execvp
  pid_mono_setenv pid_mono_getenv_word : cshell.

(** Walks through a computation built from [bind], [if] and [match]. *)
Ltac pid_mono_step :=
  match goal with
  | |- pid_mono (bind _ _) => apply pid_mono_bind; [|intros ?]
  | |- pid_mono (sys_fork _) => apply pid_mono_sys_fork
  | |- pid_mono (if ?b then _ else _) => destruct b
  | |- pid_mono (match ?x with _ => _ end) => destruct x
  | |- pid_mono (let '(_, _) := ?x in _) => destruct x
  | |- pid_mono _ => solve [auto with cshell]
  end.

Ltac pid_mono_auto := repeat (cbv beta zeta; pid_mono_step).

Section PidMonoProgram.
Context {os : OS}.

Lemma pid_mono_solve_redirection s : pid_mono (solve_redirection s).
Proof. unfold solve_redirection. pid_mono_auto. Qed.

Lemma pid_mono_restore_redirection a b c : pid_mono (restore_redirection a b c).
Proof. unfold restore_redirection. pid_mono_auto. Qed.

Lemma pid_mono_shell_cd d : pid_mono (shell_cd d).
Proof. unfold shell_cd. pid_mono_auto. Qed.

Lemma pid_mono_exec_child s v : pid_mono (exec_child s v).
Proof.
  unfold exec_child. apply pid_mono_bind; [apply pid_mono_solve_redirection|].
  intros _. apply pid_mono_bind; [intros p w; simpl; lia|]. intros args.
  pid_mono_auto.
Qed.

Lemma pid_mono_parse_simple s level father :
  pid_mono (parse_simple s level father).
Proof.
  pose proof pid_mono_solve_redirection. pose proof pid_mono_restore_redirection.
  pose proof pid_mono_shell_cd. pose proof pid_mono_exec_child.
  unfold parse_simple, shell_exit. pid_mono_auto.
Qed.

Lemma pid_mono_run_in_parallel (cmd1 cmd2 : interp) level father :
  (forall l f, pid_mono (cmd1 l f)) -> (forall l f, pid_mono (cmd2 l f)) ->
  pid_mono (run_in_parallel cmd1 cmd2 level father).
Proof. intros H1 H2. unfold run_in_parallel, parallel_child. pid_mono_auto. Qed.

Lemma pid_mono_run_on_pipe (cmd1 cmd2 : interp) level father :
  (forall l f, pid_mono (cmd1 l f)) -> (forall l f, pid_mono (cmd2 l f)) ->
  pid_mono (run_on_pipe cmd1 cmd2 level father).
Proof.
  intros H1 H2. unfold run_on_pipe, pipe_child1, pipe_child2. pid_mono_auto.
Qed.

Lemma pid_mono_parse_command_node c :
  forall level father, pid_mono (parse_command_node c level father).
Proof.
  induction c as [o sc c1 c2 IH1 IH2] using command_t_induction.
  intros level father.
  assert (H1 : forall l f, pid_mono (parse_command c1 l f)).
  { intros l f. destruct c1; [apply IH1|apply pid_mono_ret]. }
  assert (H2 : forall l f, pid_mono (parse_command c2 l f)).
  { intros l f. destruct c2; [apply IH2|apply pid_mono_ret]. }
  pose proof pid_mono_parse_simple.
  pose proof (pid_mono_run_in_parallel _ _ level
                (Some (mk_command o sc c1 c2)) H1 H2).
  pose proof (pid_mono_run_on_pipe _ _ level
                (Some (mk_command o sc c1 c2)) H1 H2).
  destruct o;
    [apply pid_mono_parse_simple
    |apply (pid_mono_bind _ _ (H1 _ _)); intros _; apply H2
    |apply pid_mono_bind; [assumption|intros ?; apply pid_mono_ret]
    |apply (pid_mono_bind _ _ (H1 _ _)); intros v;
       destruct (v =? 0); [apply H2|apply pid_mono_ret]
    |apply (pid_mono_bind _ _ (H1 _ _)); intros v;
       destruct (negb (v =? 0)); [apply H2|apply pid_mono_ret]
    |apply pid_mono_bind; [assumption|intros ?; apply pid_mono_ret]
    |apply pid_mono_ret].
Qed.

Lemma pid_mono_parse_command c level father :
  pid_mono (parse_command c level father).
Proof.
  destruct c; [apply pid_mono_parse_command_node|apply pid_mono_ret].
Qed.

End PidMonoProgram.

(** ** The parallel and the pipeline executor *)

Section Executors.
Context {os : OS}.

Lemma pid_mono_parallel_child c level father :
  pid_mono (parallel_child (parse_command c) level father).
Proof.
  unfold parallel_child.
  apply pid_mono_bind; [apply pid_mono_parse_command|intros v; apply pid_mono_exit].
Qed.

Lemma pid_mono_pipe_child1 d c level father :
  pid_mono (pipe_child1 d (parse_command c) level father).
Proof.
  pose proof (pid_mono_parse_command c). unfold pipe_child1. pid_mono_auto.
Qed.

Lemma pid_mono_pipe_child2 d c level father :
  pid_mono (pipe_child2 d (parse_command c) level father).
Proof.
  pose proof (pid_mono_parse_command c). unfold pipe_child2. pid_mono_auto.
Qed.

(** A successful [fork] hands out the next process identifier, and the child,
    once it has run, is recorded with its wait status. *)
Lemma sys_fork_inv child p w pid p1 w1 :
  pid_mono child ->
  sys_fork child p w = Ret pid p1 w1 ->
  pid <> -1 ->
  pid = next_pid w /\ next_pid w < next_pid w1 /\
  exists st, p1 = set_children (<[pid := st]> (children p)) p.
Proof.
  intros Hc H Hpid. unfold sys_fork in H.
  destruct (os_fork_fails w); [inversion H; congruence|].
  set (q := set_children ∅ p) in H.
  set (v := log (EvFork (next_pid w)) _) in H.
  specialize (Hc q v). destruct (child q v) as [[]|st w'|]; [|discriminate].
  inversion H; subst. simpl in Hc. split; [reflexivity|]. split; [lia|].
  exists st. reflexivity.
Qed.

(** What the parent computes from two children it has forked and not yet
    reaped: the two [waitpid] calls and the final conjunction, as
    [run_in_parallel] writes it (second status first). *)
Lemma wait_both_parallel pid1 pid2 st1 st2 p w :
  pid1 <> pid2 ->
  children p !! pid1 = Some st1 ->
  children p !! pid2 = Some st2 ->
  (waited1 <- sys_waitpid pid1 ;;
   waited2 <- sys_waitpid pid2 ;;
   let status_cmd1 := snd waited1 in
   let status_cmd2 := snd waited2 in
   status_cmd2 <- read_status status_cmd2 ;;
   if WEXITSTATUS status_cmd2 =? 0 then
     status_cmd1 <- read_status status_cmd1 ;;
     ret (WEXITSTATUS status_cmd1 =? 0)
   else ret false) p w =
    Ret ((WEXITSTATUS st1 =? 0) && (WEXITSTATUS st2 =? 0))
        (set_children (delete pid2 (delete pid1 (children p))) p) w.
Proof.
  intros Hne H1 H2. unfold bind, sys_waitpid. rewrite H1. simpl.
  rewrite lookup_delete_ne by exact Hne. rewrite H2. simpl.
  destruct (WEXITSTATUS st1 =? 0), (WEXITSTATUS st2 =? 0); reflexivity.
Qed.

(** The same as [run_on_pipe] writes it (first status first). *)
Lemma wait_both_pipe pid1 pid2 st1 st2 p w :
  pid1 <> pid2 ->
  children p !! pid1 = Some st1 ->
  children p !! pid2 = Some st2 ->
  (waited1 <- sys_waitpid pid1 ;;
   waited2 <- sys_waitpid pid2 ;;
   let status_cmd1 := snd waited1 in
   let status_cmd2 := snd waited2 in
   status_cmd1 <- read_status status_cmd1 ;;
   if WEXITSTATUS status_cmd1 =? 0 then
     status_cmd2 <- read_status status_cmd2 ;;
     ret (WEXITSTATUS status_cmd2 =? 0)
   else ret false) p w =
    Ret ((WEXITSTATUS st1 =? 0) && (WEXITSTATUS st2 =? 0))
        (set_children (delete pid2 (delete pid1 (children p))) p) w.
Proof.
  intros Hne H1 H2. unfold bind, sys_waitpid. rewrite H1. simpl.
  rewrite lookup_delete_ne by exact Hne. rewrite H2. simpl.
  destruct (WEXITSTATUS st1 =? 0), (WEXITSTATUS st2 =? 0); reflexivity.
Qed.

Lemma bind_assoc {A B C} (m : M A) (k : A -> M B) (k' : B -> M C) p w :
  bind (bind m k) k' p w = bind m (fun x => bind (k x) k') p w.
Proof. unfold bind. destruct (m p w); reflexivity. Qed.

Lemma bind_if {A B} (b : bool) (m1 m2 : M A) (k : A -> M B) p w :
  bind (if b then m1 else m2) k p w =
    (if b then bind m1 k p w else bind m2 k p w).
Proof. destruct b; reflexivity. Qed.

Lemma two_children child1 child2 p w pid1 p1 w1 pid2 p2 w2 :
  pid_mono child1 -> pid_mono child2 ->
  sys_fork child1 p w = Ret pid1 p1 w1 -> pid1 <> -1 ->
  sys_fork child2 p1 w1 = Ret pid2 p2 w2 -> pid2 <> -1 ->
  pid1 <> pid2 /\
  exists st1 st2,
    children p2 !! pid1 = Some st1 /\ children p2 !! pid2 = Some st2 /\
    fds p2 = fds p.
Proof.
  intros M1 M2 F1 N1 F2 N2.
  destruct (sys_fork_inv _ _ _ _ _ _ M1 F1 N1) as (E1 & L1 & st1 & ->).
  destruct (sys_fork_inv _ _ _ _ _ _ M2 F2 N2) as (E2 & L2 & st2 & ->).
  assert (Hne : pid1 <> pid2) by lia.
  split; [exact Hne|]. exists st1, st2. simpl.
  rewrite lookup_insert_ne by congruence. rewrite !lookup_insert_eq. auto.
Qed.

(** The wait status of a child is the exit code its sub-tree returned, cut to
    eight bits. *)
Lemma parallel_child_exit_status (cmd : interp) level father p w v q w' :
  cmd (level + 1) father p w = Ret v q w' ->
  parallel_child cmd level father p w = Term (W_EXITCODE v) w' /\
  WEXITSTATUS (W_EXITCODE v) = v mod 256.
Proof.
  intros H. split; [|apply WEXITSTATUS_W_EXITCODE].
  unfold parallel_child. rewrite (bind_Ret _ _ _ _ _ _ _ H). reflexivity.
Qed.

(** C2 (what the code does). Once both children of a PARALLEL node have been
    forked, the node returns 1 when both of them exited with status 0 and 0
    when either exited with another status: the [bool] of [run_in_parallel]
    reaches the caller as it is. *)
Theorem parallel_status sc l r level father p w pid1 p1 w1 pid2 p2 w2 :
  let c := mk_command OP_PARALLEL sc l r in
  sys_fork (parallel_child (parse_command l) level (Some c)) p w
    = Ret pid1 p1 w1 ->
  pid1 <> -1 ->
  sys_fork (parallel_child (parse_command r) level (Some c)) p1 w1
    = Ret pid2 p2 w2 ->
  pid2 <> -1 ->
  exists st1 st2 p',
    children p2 !! pid1 = Some st1 /\
    children p2 !! pid2 = Some st2 /\
    parse_command (Some c) level father p w =
      Ret (if (WEXITSTATUS st1 =? 0) && (WEXITSTATUS st2 =? 0) then 1 else 0)
          p' w2.
Proof.
  intros c F1 N1 F2 N2. subst c.
  destruct (two_children _ _ _ _ _ _ _ _ _ _
              (pid_mono_parallel_child _ _ _) (pid_mono_parallel_child _ _ _)
              F1 N1 F2 N2) as (Hne & st1 & st2 & C1 & C2 & _).
  exists st1, st2. eexists. split; [exact C1|]. split; [exact C2|].
  rewrite parse_command_parallel. unfold run_in_parallel.
  rewrite bind_assoc, (bind_Ret _ _ _ _ _ _ _ F1).
  apply Z.eqb_neq in N1. rewrite bind_if, N1.
  rewrite bind_assoc, (bind_Ret _ _ _ _ _ _ _ F2).
  apply Z.eqb_neq in N2. rewrite bind_if, N2.
  rewrite (bind_Ret _ _ _ _ _ _ _
             (wait_both_parallel pid1 pid2 st1 st2 p2 w2 Hne C1 C2)).
  unfold ret, int_of_bool. reflexivity.
Qed.

Lemma bind_ret_l {A B} (a : A) (k : A -> M B) p w :
  bind (ret a) k p w = k a p w.
Proof. reflexivity. Qed.

Lemma sys_close_total fd p w :
  exists r p', sys_close fd p w = Ret r p' w /\ children p' = children p.
Proof. unfold sys_close. destruct (fds p !! fd); eauto. Qed.

(** C1 (what the code does). Once the pipe has been created and both
    children of a PIPE node have been forked, the node returns 1 when both of
    them exited with status 0 and 0 when either exited with another status:
    the [bool] of [run_on_pipe] reaches the caller as it is. *)
Theorem pipe_status sc l r level father p w rc pipe_des pp wp
        pid1 p1 w1 pid2 p2 w2 :
  let c := mk_command OP_PIPE sc l r in
  sys_pipe p w = Ret (rc, pipe_des) pp wp ->
  0 <= rc ->
  sys_fork (pipe_child1 pipe_des (parse_command l) level (Some c)) pp wp
    = Ret pid1 p1 w1 ->
  pid1 <> -1 ->
  sys_fork (pipe_child2 pipe_des (parse_command r) level (Some c)) p1 w1
    = Ret pid2 p2 w2 ->
  pid2 <> -1 ->
  exists st1 st2 p',
    children p2 !! pid1 = Some st1 /\
    children p2 !! pid2 = Some st2 /\
    parse_command (Some c) level father p w =
      Ret (if (WEXITSTATUS st1 =? 0) && (WEXITSTATUS st2 =? 0) then 1 else 0)
          p' w2.
Proof.
  intros c P Hrc F1 N1 F2 N2. subst c.
  destruct (two_children _ _ _ _ _ _ _ _ _ _
              (pid_mono_pipe_child1 _ _ _ _) (pid_mono_pipe_child2 _ _ _ _)
              F1 N1 F2 N2) as (Hne & st1 & st2 & C1 & C2 & _).
  destruct (sys_close_total (des pipe_des READ) p2 w2) as (r1 & p3 & X1 & K1).
  destruct (sys_close_total (des pipe_des WRITE) p3 w2) as (r2 & p4 & X2 & K2).
  rewrite <- K1, <- K2 in C1, C2.
  exists st1, st2. eexists. split; [congruence|]. split; [congruence|].
  rewrite parse_command_pipe. unfold run_on_pipe.
  rewrite bind_assoc, (bind_Ret _ _ _ _ _ _ _ P). cbv beta iota.
  apply Z.ltb_ge in Hrc. rewrite Hrc.
  change (DIE false "pipe") with (ret tt).
  rewrite bind_assoc, bind_ret_l.
  rewrite bind_assoc, (bind_Ret _ _ _ _ _ _ _ F1).
  apply Z.eqb_neq in N1. rewrite bind_if, N1.
  rewrite bind_assoc, (bind_Ret _ _ _ _ _ _ _ F2).
  apply Z.eqb_neq in N2. rewrite bind_if, N2.
  rewrite bind_assoc, (bind_Ret _ _ _ _ _ _ _ X1).
  rewrite bind_assoc, (bind_Ret _ _ _ _ _ _ _ X2).
  rewrite (bind_Ret _ _ _ _ _ _ _
             (wait_both_pipe pid1 pid2 st1 st2 p4 w2 Hne C1 C2)).
  unfold ret, int_of_bool. reflexivity.
Qed.

End Executors.

(** ** The executors and the simple commands on concrete inputs *)

Section Examples.
Import Demo.
Local Existing Instance demo_os.

(** [true | true]: both children exit with status 0 and the node returns 1. *)
Lemma pipe_status_witness :
  let c := mk_command OP_PIPE None (leaf "true") (leaf "true") in
  value (parse_command (Some c) 0 None p0 w0) = Some 1.
Proof.
  intros c.
  eassert (P : sys_pipe p0 w0 = Ret (0, (3, 4)) _ _) by (vm_compute; reflexivity).
  lazymatch type of P with
  | _ = Ret _ ?pp ?wp =>
      eassert (F1 : sys_fork (pipe_child1 (3, 4) (parse_command (leaf "true"))
                                          0 (Some c)) pp wp = Ret 100 _ _)
        by (vm_compute; reflexivity)
  end.
  lazymatch type of F1 with
  | _ = Ret _ ?p1 ?w1 =>
      eassert (F2 : sys_fork (pipe_child2 (3, 4) (parse_command (leaf "true"))
                                          0 (Some c)) p1 w1 = Ret 102 _ _)
        by (vm_compute; reflexivity)
  end.
  destruct (pipe_status None (leaf "true") (leaf "true") 0 None p0 w0
              0 (3, 4) _ _ 100 _ _ 102 _ _ P ltac:(lia) F1 ltac:(lia) F2 ltac:(lia))
    as (st1 & st2 & p' & C1 & C2 & E).
  vm_compute in C1. vm_compute in C2.
  injection C1 as <-. injection C2 as <-.
  fold c in E. rewrite E. reflexivity.
Defined.

(** [true & true]: both children exit with status 0 and the node returns 1. *)
Lemma parallel_status_witness :
  let c := mk_command OP_PARALLEL None (leaf "true") (leaf "true") in
  value (parse_command (Some c) 0 None p0 w0) = Some 1.
Proof.
  intros c.
  eassert (F1 : sys_fork (parallel_child (parse_command (leaf "true")) 0 (Some c))
                  p0 w0 = Ret 100 _ _) by (vm_compute; reflexivity).
  lazymatch type of F1 with
  | _ = Ret _ ?p1 ?w1 =>
      eassert (F2 : sys_fork (parallel_child (parse_command (leaf "true"))
                                             0 (Some c)) p1 w1 = Ret 102 _ _)
        by (vm_compute; reflexivity)
  end.
  destruct (parallel_status None (leaf "true") (leaf "true") 0 None p0 w0
              100 _ _ 102 _ _ F1 ltac:(lia) F2 ltac:(lia))
    as (st1 & st2 & p' & C1 & C2 & E).
  vm_compute in C1. vm_compute in C2.
  injection C1 as <-. injection C2 as <-.
  fold c in E. rewrite E. reflexivity.
Defined.

(** A failing child makes both nodes return 0. *)
Example pipe_with_failing_child :
  value (run (node OP_PIPE (leaf "true") (leaf "false"))) = Some 0 /\
  value (run (node OP_PARALLEL (leaf "false") (leaf "true"))) = Some 0.
Proof. split; vm_compute; reflexivity. Qed.

Lemma parse_simple_result_range_witness :
  exists v p' w',
    parse_simple (Some (simple "false" None)) 0 None p0 w0 = Ret v p' w' /\
    (0 <= v <= 255 \/ v = SHELL_EXIT \/ v = -1).
Proof.
  eassert (H : parse_simple (Some (simple "false" None)) 0 None p0 w0 = Ret _ _ _)
    by (vm_compute; reflexivity).
  eexists _, _, _. split; [exact H|].
  exact (proj1 (parse_simple_result_range _ _ _ _ _ _ _ _ H)).
Defined.

(** C5 as stated fails: a null command, a null verb string and an assignment
    with nothing after the '=' all return -1, which is neither an exit status
    nor the sentinel. *)
Lemma parse_simple_minus_one :
  value (parse_simple None 0 None p0 w0) = Some (-1) /\
  value (parse_simple
           (Some (mk_simple (Some (mk_word None None None)) None None None None 0))
           0 None p0 w0) = Some (-1) /\
  value (parse_simple (Some (simple "A=" None)) 0 None p0 w0) = Some (-1) /\
  ~ (0 <= -1 <= 255 \/ -1 = SHELL_EXIT).
Proof.
  repeat split; try (vm_compute; reflexivity).
  intros [H|H]; [lia|discriminate H].
Qed.


(** [cd /tmp] succeeds and [cd /nowhere] fails, as [chdir] does. *)
Example cd_one_argument :
  value (parse_simple (Some (simple "cd" (Some (word "/tmp")))) 0 None p0 w0)
    = Some 0 /\
  value (parse_simple (Some (simple "cd" (Some (word "/nowhere")))) 0 None p0 w0)
    = Some 1 /\
  value (parse_simple (Some (simple "cd" None)) 0 None p0 w0) = Some 0.
Proof. repeat split; vm_compute; reflexivity. Qed.

(** [cmd > f 2> ./f]: the two strings name the same file (inode 7), and the
    two descriptors refer to two descriptions of it, each with its own
    offset. *)
Example different_strings_same_file :
  let s := mk_simple (Some (word "true")) None None
                     (Some (word "f")) (Some (word "./f")) 0 in
  match solve_redirection s p0 w0 with
  | Ret _ p' w' =>
      fds p' !! STDOUT_FILENO = Some 1%nat /\
      fds p' !! STDERR_FILENO = Some 2%nat /\
      ofds w' !! 1%nat = Some (OfdFile 7 (Z.lor (Z.lor O_CREAT O_WRONLY) O_TRUNC)) /\
      ofds w' !! 2%nat = Some (OfdFile 7 (Z.lor (Z.lor O_CREAT O_WRONLY) O_TRUNC))
  | _ => False
  end.
Proof. vm_compute. repeat split. Qed.

End Examples.

(** * Further properties of [cmd.c] *)

(** ** Redirection and the descriptor table *)

Section RedirectionTable.
Context {os : OS}.

Lemma redirected_frame std k p w :
  is_Some (fds p !! std) -> k <> std ->
  fds (redirected std p w) !! k = fds p !! k.
Proof.
  intros Hopen Hk. unfold redirected. simpl.
  pose proof (lowest_free_not_open _ _ Hopen) as Hfd.
  pose proof (lowest_free_is_free (fds p)) as Hfree.
  destruct (decide (k = lowest_free (fds p))) as [->|Hne].
  - rewrite lookup_delete_eq, Hfree. reflexivity.
  - rewrite lookup_delete_ne by congruence.
    rewrite lookup_insert_ne by congruence.
    rewrite lookup_insert_ne by congruence. reflexivity.
Qed.

Lemma redirected_std_open std p w :
  is_Some (fds p !! std) -> is_Some (fds (redirected std p w) !! std).
Proof. intros H. rewrite (redirected_lookup_std _ _ _ H). eauto. Qed.

(** One optional block of [solve_redirection] changes at most [std]. *)
Lemma redirect_step_table std (p p' : process) (w : world) :
  is_Some (fds p !! std) ->
  p' = p \/ p' = redirected std p w ->
  is_Some (fds p' !! std) /\
  forall k, k <> std -> fds p' !! k = fds p !! k.
Proof.
  intros Hopen [->| ->].
  - split; [exact Hopen|reflexivity].
  - split; [apply redirected_std_open, Hopen|].
    intros k Hk. apply redirected_frame; assumption.
Qed.

Lemma solve_redirection_table s p w u p' w' :
  std_open p ->
  solve_redirection s p w = Ret u p' w' ->
  std_open p' /\ forall k, not_std k -> fds p' !! k = fds p !! k.
Proof.
  intros (H0 & H1 & H2) H. apply solve_redirection_inv in H.
  destruct H as (p1 & w1 & p2 & w2 & p3 & w3 & Hin & Hout & Herr & H).
  assert (S1 : p1 = p \/ p1 = redirected STDIN_FILENO p w).
  { destruct Hin as [(-> & _)|(? & ? & ? & _ & _ & _ & -> & _)]; auto. }
  assert (S2 : p2 = p1 \/ p2 = redirected STDOUT_FILENO p1 w1).
  { destruct Hout as [(-> & _)|(? & ? & ? & ? & _ & _ & _ & -> & _)]; auto. }
  assert (S3 : p3 = p2 \/ p3 = redirected STDERR_FILENO p2 w2).
  { destruct Herr as [(-> & _)|(? & ? & ? & ? & _ & _ & _ & -> & _)]; auto. }
  clear Hin Hout Herr.
  destruct (redirect_step_table _ _ _ w H0 S1) as [A0 F1].
  assert (A1 : is_Some (fds p1 !! STDOUT_FILENO))
    by (rewrite F1 by discriminate; exact H1).
  assert (A2 : is_Some (fds p1 !! STDERR_FILENO))
    by (rewrite F1 by discriminate; exact H2).
  destruct (redirect_step_table _ _ _ w1 A1 S2) as [B1 F2].
  assert (B0 : is_Some (fds p2 !! STDIN_FILENO))
    by (rewrite F2 by discriminate; exact A0).
  assert (B2 : is_Some (fds p2 !! STDERR_FILENO))
    by (rewrite F2 by discriminate; exact A2).
  destruct (redirect_step_table _ _ _ w2 B2 S3) as [C2 F3].
  assert (C0 : is_Some (fds p3 !! STDIN_FILENO))
    by (rewrite F3 by discriminate; exact B0).
  assert (C1 : is_Some (fds p3 !! STDOUT_FILENO))
    by (rewrite F3 by discriminate; exact B1).
  assert (Hframe : forall k, not_std k -> fds p3 !! k = fds p !! k).
  { intros k (K0 & K1 & K2).
    rewrite F3 by exact K2. rewrite F2 by exact K1. apply F1, K0. }
  assert (Hlast : p' = p3 \/
                  exists id, fds p3 !! STDOUT_FILENO = Some id /\
                             p' = set_fds (<[STDERR_FILENO := id]> (fds p3)) p3).
  { destruct (s_out s) as [o|]; [destruct (s_err s) as [e|]|];
      try (inv_ret H; left; reflexivity).
    destruct (w_string o) as [so|]; [destruct (w_string e) as [se|]|];
      try discriminate.
    destruct (String.eqb so se); [|inv_ret H; left; reflexivity].
    right. destruct C1 as [id Hid]. exists id. split; [exact Hid|].
    unfold bind, sys_dup2 in H. rewrite Hid in H. simpl in H. inv_ret H.
    reflexivity. }
  destruct Hlast as [->|(id & Hid & ->)].
  - split; [exact (conj C0 (conj C1 C2))|exact Hframe].
  - split.
    + repeat split; simpl.
      * rewrite lookup_insert_ne by discriminate. exact C0.
      * rewrite lookup_insert_ne by discriminate. exact C1.
      * rewrite lookup_insert_eq. eauto.
    + intros k Hk. simpl. destruct Hk as (K0 & K1 & K2).
      rewrite lookup_insert_ne by congruence. apply Hframe. repeat split; assumption.
Qed.

(** X1. When the three standard descriptors are open, [solve_redirection]
    that returns has changed nothing but what descriptors 0, 1 and 2 refer
    to: every other descriptor is as before, none is left open in addition,
    the three standard ones are still open, and working directory,
    environment and children are untouched. *)
Theorem redirection_touches_only_std s p w u p' w' :
  std_open p ->
  solve_redirection s p w = Ret u p' w' ->
  std_open p' /\
  (forall k, not_std k -> fds p' !! k = fds p !! k) /\
  dom (fds p') = dom (fds p) /\
  same_but_fds p p'.
Proof.
  intros Hopen H.
  destruct (solve_redirection_table _ _ _ _ _ _ Hopen H) as [Hopen' Hframe].
  split; [exact Hopen'|]. split; [exact Hframe|]. split.
  - apply set_eq. intros k. rewrite !elem_of_dom.
    destruct Hopen as (H0 & H1 & H2), Hopen' as (H0' & H1' & H2').
    destruct (decide (k = STDIN_FILENO)) as [->|K0]; [tauto|].
    destruct (decide (k = STDOUT_FILENO)) as [->|K1]; [tauto|].
    destruct (decide (k = STDERR_FILENO)) as [->|K2]; [tauto|].
    rewrite Hframe by (repeat split; assumption). tauto.
  - apply (solve_redirection_frame _ _ _ _ _ _ H).
Qed.

End RedirectionTable.

(** ** The saved descriptors of [parse_simple] *)

Section SavedDescriptors.
Context {os : OS}.

Lemma sys_dup_dup_to fd p w :
  exists r, sys_dup fd p w = Ret r (dup_to fd p) w /\
            (is_Some (fds p !! fd) -> r = lowest_free (fds p)).
Proof.
  unfold sys_dup, dup_to. destruct (fds p !! fd) as [id|].
  - eexists. split; [reflexivity|]. intros _. reflexivity.
  - exists (-1). split; [reflexivity|]. intros [x Hx]. discriminate.
Qed.

Lemma dup_to_fds fd p id :
  fds p !! fd = Some id ->
  fds (dup_to fd p) = <[lowest_free (fds p) := id]> (fds p).
Proof. intros H. unfold dup_to. rewrite H. reflexivity. Qed.

Lemma dup_to_same fd p : same_but_fds p (dup_to fd p).
Proof. unfold dup_to. destruct (fds p !! fd); auto with cshell. Qed.

Lemma saved_same p : same_but_fds p (saved p).
Proof.
  unfold saved.
  eapply same_but_fds_trans; [apply dup_to_same|].
  eapply same_but_fds_trans; apply dup_to_same.
Qed.

(** The head of [parse_simple] always reaches its continuation, in the
    process [saved p]. *)
Lemma saved_run p w :
  exists a b c,
    (is_Some (fds p !! STDIN_FILENO) -> a = lowest_free (fds p)) /\
    (is_Some (fds (dup_to STDIN_FILENO p) !! STDOUT_FILENO) ->
     b = lowest_free (fds (dup_to STDIN_FILENO p))) /\
    (is_Some (fds (dup_to STDOUT_FILENO (dup_to STDIN_FILENO p)) !! STDERR_FILENO) ->
     c = lowest_free (fds (dup_to STDOUT_FILENO (dup_to STDIN_FILENO p)))) /\
    forall B (k : Z -> Z -> Z -> M B),
      (x <- sys_dup STDIN_FILENO ;;
       y <- sys_dup STDOUT_FILENO ;;
       z <- sys_dup STDERR_FILENO ;;
       k x y z) p w = k a b c (saved p) w.
Proof.
  destruct (sys_dup_dup_to STDIN_FILENO p w) as (a & Ea & Ha).
  destruct (sys_dup_dup_to STDOUT_FILENO (dup_to STDIN_FILENO p) w)
    as (b & Eb & Hb).
  destruct (sys_dup_dup_to STDERR_FILENO
              (dup_to STDOUT_FILENO (dup_to STDIN_FILENO p)) w)
    as (c & Ec & Hc).
  exists a, b, c. repeat split; try assumption.
  intros B k. unfold bind. rewrite Ea, Eb, Ec. reflexivity.
Qed.

(** With the standard descriptors open, the three duplicates sit on three
    distinct descriptors that were free. *)
Lemma saved_table p w :
  std_open p ->
  exists a b c i0 i1 i2,
    fds p !! STDIN_FILENO = Some i0 /\
    fds p !! STDOUT_FILENO = Some i1 /\
    fds p !! STDERR_FILENO = Some i2 /\
    fds p !! a = None /\ fds p !! b = None /\ fds p !! c = None /\
    a <> b /\ a <> c /\ b <> c /\
    fds (saved p) = <[c := i2]> (<[b := i1]> (<[a := i0]> (fds p))) /\
    forall B (k : Z -> Z -> Z -> M B),
      (x <- sys_dup STDIN_FILENO ;;
       y <- sys_dup STDOUT_FILENO ;;
       z <- sys_dup STDERR_FILENO ;;
       k x y z) p w = k a b c (saved p) w.
Proof.
  intros ([i0 H0] & [i1 H1] & [i2 H2]).
  set (a := lowest_free (fds p)).
  pose proof (lowest_free_is_free (fds p)) as Fa. fold a in Fa.
  assert (E1 : fds (dup_to STDIN_FILENO p) = <[a := i0]> (fds p))
    by (apply dup_to_fds, H0).
  set (b := lowest_free (fds (dup_to STDIN_FILENO p))).
  pose proof (lowest_free_is_free (fds (dup_to STDIN_FILENO p))) as Fb.
  fold b in Fb. rewrite E1 in Fb.
  assert (Nab : a <> b).
  { intros E. rewrite <- E, lookup_insert_eq in Fb. discriminate. }
  rewrite lookup_insert_ne in Fb by exact Nab.
  assert (Na1 : a <> STDOUT_FILENO) by (intros E; rewrite E in Fa; congruence).
  assert (Na2 : a <> STDERR_FILENO) by (intros E; rewrite E in Fa; congruence).
  assert (Nb2 : b <> STDERR_FILENO) by (intros E; rewrite E in Fb; congruence).
  assert (E2 : fds (dup_to STDOUT_FILENO (dup_to STDIN_FILENO p))
               = <[b := i1]> (<[a := i0]> (fds p))).
  { rewrite (dup_to_fds _ _ i1).
    - fold b. rewrite E1. reflexivity.
    - rewrite E1, lookup_insert_ne by exact Na1. exact H1. }
  set (c := lowest_free (fds (dup_to STDOUT_FILENO (dup_to STDIN_FILENO p)))).
  pose proof (lowest_free_is_free
                (fds (dup_to STDOUT_FILENO (dup_to STDIN_FILENO p)))) as Fc.
  fold c in Fc. rewrite E2 in Fc.
  assert (Nbc : b <> c).
  { intros E. rewrite <- E, lookup_insert_eq in Fc. discriminate. }
  rewrite lookup_insert_ne in Fc by exact Nbc.
  assert (Nac : a <> c).
  { intros E. rewrite <- E, lookup_insert_eq in Fc. discriminate. }
  rewrite lookup_insert_ne in Fc by exact Nac.
  assert (L1 : fds (dup_to STDIN_FILENO p) !! STDOUT_FILENO = Some i1).
  { rewrite E1, lookup_insert_ne by exact Na1. exact H1. }
  assert (L2 : fds (dup_to STDOUT_FILENO (dup_to STDIN_FILENO p))
                 !! STDERR_FILENO = Some i2).
  { rewrite E2, lookup_insert_ne by exact Nb2.
    rewrite lookup_insert_ne by exact Na2. exact H2. }
  exists a, b, c, i0, i1, i2.
  do 9 (split; [assumption|]). split.
  - unfold saved. rewrite (dup_to_fds _ _ i2 L2).
    fold c. rewrite E2. reflexivity.
  - destruct (saved_run p w) as (a' & b' & c' & Ha & Hb & Hc & Hrun).
    rewrite Ha in Hrun by eauto. rewrite Hb in Hrun by eauto.
    rewrite Hc in Hrun by eauto. exact Hrun.
Qed.

Lemma saved_std_open p : std_open p -> std_open (saved p).
Proof.
  intros Hopen.
  destruct (saved_table p (mk_world [] 0 []) Hopen)
    as (a & b & c & i0 & i1 & i2 & H0 & H1 & H2 & Fa & Fb & Fc & _ & _ & _ & E & _).
  unfold std_open. rewrite E.
  repeat split;
    (rewrite lookup_insert_ne by congruence;
     rewrite lookup_insert_ne by congruence;
     rewrite lookup_insert_ne by congruence; eauto).
Qed.

Lemma shell_cd_table d p w b p' w' :
  shell_cd d p w = Ret b p' w' ->
  fds p' = fds p /\ env p' = env p /\ children p' = children p.
Proof.
  unfold shell_cd. destruct d as [d|]; [|intros H; inv_ret H; auto].
  destruct (next_word d); [intros H; inv_ret H; auto|].
  intros H. inv_bind H as rc Hch at pc wc.
  assert (fds pc = fds p /\ env pc = env p /\ children pc = children p) as Hc.
  { unfold sys_chdir in Hch.
    destruct (w_string d) as [path|]; [destruct (os_chdir w (cwd p) path)|];
      inversion Hch; subst; auto. }
  destruct (rc =? 0); inv_ret H; exact Hc.
Qed.

(** [restore_redirection] on three open saved descriptors. *)
Lemma restore_redirection_table a b c i0 i1 i2 p w :
  fds p !! a = Some i0 -> fds p !! b = Some i1 -> fds p !! c = Some i2 ->
  a <> b -> a <> c -> b <> c ->
  not_std a -> not_std b -> not_std c ->
  exists p',
    restore_redirection a b c p w = Ret tt p' w /\
    same_but_fds p p' /\
    fds p' =
      delete c (<[STDERR_FILENO := i2]>
        (delete b (<[STDOUT_FILENO := i1]>
          (delete a (<[STDIN_FILENO := i0]> (fds p)))))).
Proof.
  intros Ha Hb Hc Nab Nac Nbc (A0 & A1 & A2) (B0 & B1 & B2) (C0 & C1 & C2).
  unfold restore_redirection, bind.
  unfold sys_dup2 at 1. rewrite Ha. cbn [Z.ltb Z.compare STDIN_FILENO].
  unfold sys_close at 1. cbn [fds set_fds].
  rewrite lookup_insert_ne by congruence. rewrite Ha.
  unfold sys_dup2 at 1. cbn [fds set_fds].
  rewrite lookup_delete_ne by congruence.
  rewrite lookup_insert_ne by congruence. rewrite Hb.
  cbn [Z.ltb Z.compare STDOUT_FILENO].
  unfold sys_close at 1. cbn [fds set_fds].
  rewrite lookup_insert_ne by congruence.
  rewrite lookup_delete_ne by congruence.
  rewrite lookup_insert_ne by congruence. rewrite Hb.
  unfold sys_dup2 at 1. cbn [fds set_fds].
  rewrite lookup_delete_ne by congruence.
  rewrite lookup_insert_ne by congruence.
  rewrite lookup_delete_ne by congruence.
  rewrite lookup_insert_ne by congruence. rewrite Hc.
  cbn [Z.ltb Z.compare STDERR_FILENO].
  unfold sys_close at 1. cbn [fds set_fds].
  rewrite lookup_insert_ne by congruence.
  rewrite lookup_delete_ne by congruence.
  rewrite lookup_insert_ne by congruence.
  rewrite lookup_delete_ne by congruence.
  rewrite lookup_insert_ne by congruence. rewrite Hc.
  eexists. split; [reflexivity|]. split; [|reflexivity].
  repeat split.
Qed.

End SavedDescriptors.

(** ** The built-in [cd] and the descriptors of the shell *)

Section CdDescriptors.
Context {os : OS}.

(** X2. The built-in [cd], run with the three standard descriptors open,
    gives the shell its descriptor table back exactly: whatever the
    redirection targets did to descriptors 0, 1 and 2 is undone and the
    three saved duplicates are closed again.  Environment and children are
    untouched as well; only the working directory may have changed. *)
Theorem cd_restores_descriptors sc vb vs level father p w r p' w' :
  verb sc = Some vb ->
  w_string vb = Some vs ->
  get_word vb (env p) = "cd" ->
  std_open p ->
  parse_simple (Some sc) level father p w = Ret r p' w' ->
  fds p' = fds p /\ env p' = env p /\ children p' = children p.
Proof.
  intros Hverb Hstr Hcmd Hopen H.
  destruct (saved_table p w Hopen)
    as (a & b & c & i0 & i1 & i2 & H0 & H1 & H2 & Fa & Fb & Fc
        & Nab & Nac & Nbc & E & Hrun).
  unfold parse_simple in H. rewrite Hverb, Hstr in H.
  unfold bind at 1 in H. unfold getenv_word in H. rewrite Hrun, Hcmd in H.
  simpl in H.
  inv_bind H as u Hred at p1 w1. inv_bind H as res Hcd at p2 w2.
  inv_bind H as u' Hback at p3 w3. inv_ret H.
  destruct (solve_redirection_table _ _ _ _ _ _ (saved_std_open _ Hopen) Hred)
    as [_ Hframe].
  pose proof (solve_redirection_frame _ _ _ _ _ _ Hred) as [S1 _].
  destruct (shell_cd_table _ _ _ _ _ _ Hcd) as (T2 & V2 & C2).
  assert (Sa : not_std a) by (repeat split; intros K; rewrite K in Fa; congruence).
  assert (Sb : not_std b) by (repeat split; intros K; rewrite K in Fb; congruence).
  assert (Sc : not_std c) by (repeat split; intros K; rewrite K in Fc; congruence).
  assert (La : fds p2 !! a = Some i0).
  { rewrite T2, (Hframe a Sa), E.
    rewrite lookup_insert_ne by congruence.
    rewrite lookup_insert_ne by congruence. apply lookup_insert_eq. }
  assert (Lb : fds p2 !! b = Some i1).
  { rewrite T2, (Hframe b Sb), E.
    rewrite lookup_insert_ne by congruence. apply lookup_insert_eq. }
  assert (Lc : fds p2 !! c = Some i2).
  { rewrite T2, (Hframe c Sc), E. apply lookup_insert_eq. }
  destruct (restore_redirection_table a b c i0 i1 i2 p2 w2
              La Lb Lc Nab Nac Nbc Sa Sb Sc) as (q & Hq & Sq & Eq).
  rewrite Hq in Hback. inversion Hback; subst. clear Hback.
  destruct Sq as (_ & Ve & Vc).
  destruct (saved_same p) as (_ & Se & Sch), S1 as (_ & Re & Rc).
  split; [|split; congruence].
  rewrite Eq. apply map_eq. intros k.
  destruct Sa as (A0 & A1 & A2), Sb as (B0 & B1 & B2), Sc as (C0 & C1 & C2').
  destruct (decide (k = c)) as [->|Kc].
  { rewrite lookup_delete_eq, Fc. reflexivity. }
  rewrite lookup_delete_ne by congruence.
  destruct (decide (k = STDERR_FILENO)) as [->|K2].
  { rewrite lookup_insert_eq, H2. reflexivity. }
  rewrite lookup_insert_ne by congruence.
  destruct (decide (k = b)) as [->|Kb].
  { rewrite lookup_delete_eq, Fb. reflexivity. }
  rewrite lookup_delete_ne by congruence.
  destruct (decide (k = STDOUT_FILENO)) as [->|K1].
  { rewrite lookup_insert_eq, H1. reflexivity. }
  rewrite lookup_insert_ne by congruence.
  destruct (decide (k = a)) as [->|Ka].
  { rewrite lookup_delete_eq, Fa. reflexivity. }
  rewrite lookup_delete_ne by congruence.
  destruct (decide (k = STDIN_FILENO)) as [->|K0].
  { rewrite lookup_insert_eq, H0. reflexivity. }
  rewrite lookup_insert_ne by congruence.
  rewrite T2, (Hframe k) by (repeat split; assumption). rewrite E.
  rewrite lookup_insert_ne by congruence.
  rewrite lookup_insert_ne by congruence.
  rewrite lookup_insert_ne by congruence. reflexivity.
Qed.

End CdDescriptors.

(** ** Commands other than [cd]: what they leave in the shell *)

Section NotCd.
Context {os : OS}.

Lemma sys_fork_frame child p w pid p1 w1 :
  sys_fork child p w = Ret pid p1 w1 ->
  fds p1 = fds p /\ cwd p1 = cwd p /\ env p1 = env p.
Proof.
  unfold sys_fork. destruct (os_fork_fails w); [intros H; inversion H; auto|].
  match goal with |- context [child ?q ?v] => destruct (child q v) as [[]| |] end;
    intros H; inversion H; auto.
Qed.

Lemma sys_waitpid_frame pid p w r p1 w1 :
  sys_waitpid pid p w = Ret r p1 w1 ->
  fds p1 = fds p /\ cwd p1 = cwd p /\ env p1 = env p /\ w1 = w.
Proof.
  unfold sys_waitpid. destruct (children p !! pid); intros H; inversion H; auto.
Qed.

Lemma setenv_frame name value o p w r p1 w1 :
  setenv name value o p w = Ret r p1 w1 ->
  fds p1 = fds p /\ cwd p1 = cwd p /\ children p1 = children p /\ w1 = w.
Proof.
  unfold setenv.
  destruct (name_ok name); [destruct (env p !! name); [destruct (o =? 0)|]|];
    intros H; inversion H; auto.
Qed.

Lemma read_status_inv st p w r p1 w1 :
  read_status st p w = Ret r p1 w1 -> st = Some r /\ p1 = p /\ w1 = w.
Proof. destruct st; [|discriminate]. intros H. inv_ret H. auto. Qed.

(** Outside the [cd] branch nothing closes the three saved duplicates: the
    command returns with the descriptor table of [saved p]. *)
Lemma parse_simple_not_cd_table sc vb vs level father p w r p' w' :
  verb sc = Some vb ->
  w_string vb = Some vs ->
  String.eqb (get_word vb (env p)) "cd" = false ->
  parse_simple (Some sc) level father p w = Ret r p' w' ->
  fds p' = fds (saved p) /\ cwd p' = cwd p.
Proof.
  intros Hverb Hstr Hcd H.
  destruct (saved_run p w) as (a & b & c & _ & _ & _ & Hrun).
  destruct (saved_same p) as (Scwd & _ & _).
  unfold parse_simple in H. rewrite Hverb, Hstr in H.
  unfold bind at 1 in H. unfold getenv_word in H. rewrite Hrun, Hcd in H.
  destruct (String.eqb (get_word vb (env p)) "exit"
            || String.eqb (get_word vb (env p)) "quit").
  { inv_ret H. auto. }
  destruct (strchr (get_word vb (env p)) "=").
  { destruct (strtok_r (list_ascii_of_string (get_word vb (env p))) "=")
      as [name save].
    destruct (strtok_r save "=") as [value save'].
    destruct name as [name|]; [destruct value as [value|]|];
      try solve [inv_ret H; auto].
    inv_bind H as result Eset at p1 w1. inv_ret H.
    destruct (setenv_frame _ _ _ _ _ _ _ _ Eset) as (F & C & _).
    split; congruence. }
  inv_bind H as pid Efork at p1 w1. inv_bind H as u Edie at p2 w2.
  inv_bind H as waited Ewait at p3 w3. destruct waited as [wait_ret status].
  inv_bind H as u' Edie' at p4 w4. inv_bind H as st Est at p5 w5.
  inv_ret H.
  destruct (sys_fork_frame _ _ _ _ _ _ Efork) as (F1 & C1 & _).
  destruct (DIE_inv _ _ _ _ _ _ _ Edie) as (_ & -> & _).
  destruct (sys_waitpid_frame _ _ _ _ _ _ Ewait) as (F3 & C3 & _).
  destruct (DIE_inv _ _ _ _ _ _ _ Edie') as (_ & -> & _).
  destruct (read_status_inv _ _ _ _ _ _ Est) as (_ & -> & _).
  split; congruence.
Qed.

(** X3. Every simple command that is not [cd] and returns (exit, quit, an
    assignment, an external command) leaves the three duplicates of the
    standard descriptors open in the shell: the descriptors that were open
    are as before, and three more are open. *)
Theorem saved_descriptors_stay_open sc vb vs level father p w r p' w' :
  verb sc = Some vb ->
  w_string vb = Some vs ->
  String.eqb (get_word vb (env p)) "cd" = false ->
  std_open p ->
  parse_simple (Some sc) level father p w = Ret r p' w' ->
  (forall k, is_Some (fds p !! k) -> fds p' !! k = fds p !! k) /\
  size (fds p') = S (S (S (size (fds p)))).
Proof.
  intros Hverb Hstr Hcd Hopen H.
  destruct (parse_simple_not_cd_table _ _ _ _ _ _ _ _ _ _ Hverb Hstr Hcd H)
    as [E _].
  destruct (saved_table p w Hopen)
    as (a & b & c & i0 & i1 & i2 & _ & _ & _ & Fa & Fb & Fc
        & Nab & Nac & Nbc & Es & _).
  rewrite E, Es. split.
  - intros k [x Hx].
    rewrite lookup_insert_ne by (intros K; rewrite <- K in Hx; congruence).
    rewrite lookup_insert_ne by (intros K; rewrite <- K in Hx; congruence).
    rewrite lookup_insert_ne by (intros K; rewrite <- K in Hx; congruence).
    reflexivity.
  - rewrite map_size_insert_None.
    + rewrite map_size_insert_None.
      * rewrite map_size_insert_None by exact Fa. reflexivity.
      * rewrite lookup_insert_ne by exact Nab. exact Fb.
    + rewrite lookup_insert_ne by exact Nbc.
      rewrite lookup_insert_ne by exact Nac. exact Fc.
Qed.

(** X4. The built-ins [exit] and [quit] return the sentinel at once: no
    redirection target is opened, nothing is forked, no call reaches the
    world, and working directory, environment and children are as before. *)
Theorem exit_bypasses_redirection sc vb vs level father p w :
  verb sc = Some vb ->
  w_string vb = Some vs ->
  get_word vb (env p) = "exit" \/ get_word vb (env p) = "quit" ->
  parse_simple (Some sc) level father p w = Ret SHELL_EXIT (saved p) w /\
  same_but_fds p (saved p).
Proof.
  intros Hverb Hstr Hcmd. split; [|apply saved_same].
  destruct (saved_run p w) as (a & b & c & _ & _ & _ & Hrun).
  unfold parse_simple. rewrite Hverb, Hstr.
  unfold bind at 1. unfold getenv_word. rewrite Hrun.
  destruct Hcmd as [-> | ->]; reflexivity.
Qed.

End NotCd.

(** ** Assignments: every verb that holds an '=' *)

Section AssignmentTokens.
Context {os : OS}.

Lemma skip_delim_head d s c r :
  skip_delim d s = c :: r -> Ascii.eqb c d = false.
Proof.
  induction s as [|x s IH]; simpl; [discriminate|].
  destruct (Ascii.eqb x d) eqn:E; [exact IH|].
  intros [= -> _]. exact E.
Qed.

Lemma take_token_no_delim d s : no_delim d (fst (take_token d s)).
Proof.
  unfold no_delim. induction s as [|x s IH]; simpl; [reflexivity|].
  destruct (Ascii.eqb x d) eqn:E; [reflexivity|].
  destruct (take_token d s) as [t rest]. simpl in *.
  rewrite Ascii.eqb_sym, E, IH. reflexivity.
Qed.

(** A token returned by [strtok_r] is never empty and holds no delimiter. *)
Lemma strtok_r_token_facts s d t rest :
  strtok_r s d = (Some t, rest) -> t <> "" /\ strchr t d = false.
Proof.
  unfold strtok_r. destruct (skip_delim d s) as [|c r] eqn:E; [discriminate|].
  apply skip_delim_head in E.
  pose proof (take_token_no_delim d (c :: r)) as Hno.
  destruct (take_token d (c :: r)) as [tok rest'] eqn:T.
  intros [= <- _]. simpl in T. rewrite E in T.
  destruct (take_token d r) as [t' rest'']. injection T as <- _.
  split; [discriminate|].
  unfold strchr. rewrite list_ascii_of_string_of_list_ascii. exact Hno.
Qed.

(** X5. A verb that holds an '=' never forks and never reaches the world.
    When [strtok_r] finds a name and a value, both are non-empty and free of
    '=', [setenv] cannot refuse them, the command returns 0 and the
    environment is the old one with the name bound to the value; otherwise
    the command returns -1 and the environment is unchanged. *)
Theorem assignment_result sc vb vs level father p w :
  verb sc = Some vb ->
  w_string vb = Some vs ->
  strchr (get_word vb (env p)) "=" = true ->
  match assignment_parts (get_word vb (env p)) with
  | Some (name, value) =>
      name <> "" /\ strchr name "=" = false /\
      value <> "" /\ strchr value "=" = false /\
      parse_simple (Some sc) level father p w =
        Ret 0 (set_env (<[name := value]> (env p)) (saved p)) w
  | None =>
      parse_simple (Some sc) level father p w = Ret (-1) (saved p) w
  end.
Proof.
  intros Hverb Hstr Hhas.
  destruct (saved_run p w) as (a & b & c & _ & _ & _ & Hrun).
  assert (Hrun' :
            parse_simple (Some sc) level father p w =
              match assignment_parts (get_word vb (env p)) with
              | Some (name, value) => setenv name value 1 (saved p) w
              | None => Ret (-1) (saved p) w
              end).
  { unfold parse_simple. rewrite Hverb, Hstr.
    unfold bind at 1. unfold getenv_word. rewrite Hrun.
    rewrite (strchr_differs _ "cd" _ Hhas eq_refl).
    rewrite (strchr_differs _ "exit" _ Hhas eq_refl).
    rewrite (strchr_differs _ "quit" _ Hhas eq_refl).
    simpl orb. cbv iota. rewrite Hhas. unfold assignment_parts.
    destruct (strtok_r (list_ascii_of_string (get_word vb (env p))) "=")
      as [[name|] save];
      destruct (strtok_r save "=") as [[value|] save']; try reflexivity.
    apply bind_ret_r. }
  rewrite Hrun'. unfold assignment_parts.
  destruct (strtok_r (list_ascii_of_string (get_word vb (env p))) "=")
    as [[name|] save] eqn:T1;
    destruct (strtok_r save "=") as [[value|] save'] eqn:T2; try reflexivity.
  destruct (strtok_r_token_facts _ _ _ _ T1) as [N1 N2].
  destruct (strtok_r_token_facts _ _ _ _ T2) as [V1 V2].
  do 4 (split; [assumption|]).
  destruct (saved_same p) as (_ & Henv & _).
  unfold setenv. rewrite (name_ok_token _ N1 N2), Henv.
  destruct (env p !! name); reflexivity.
Qed.

End AssignmentTokens.

(** ** External commands *)

Lemma WEXITSTATUS_low status : 0 <= status < 256 -> WEXITSTATUS status = 0.
Proof.
  intros H. rewrite WEXITSTATUS_land.
  rewrite Z.shiftr_div_pow2 by lia. change (2 ^ 8) with 256.
  rewrite Z.div_small by lia. reflexivity.
Qed.

Section External.
Context {os : OS}.

(** The parent side of the external branch: fork, wait, read the status. *)
Lemma parse_simple_external_run sc vb vs level father p w st w1 :
  verb sc = Some vb ->
  w_string vb = Some vs ->
  external_verb (get_word vb (env p)) ->
  os_fork_fails w = false ->
  0 <= next_pid w ->
  exec_child sc vs (set_children ∅ (saved p)) (fork_world w) = Term st w1 ->
  parse_simple (Some sc) level father p w =
    Ret (WEXITSTATUS st)
        (set_children (delete (next_pid w) (<[next_pid w := st]> (children p)))
                      (saved p))
        w1.
Proof.
  intros Hverb Hstr (E1 & E2 & E3 & E4) Hfork Hpid Hchild.
  destruct (saved_run p w) as (a & b & c & _ & _ & _ & Hrun).
  destruct (saved_same p) as (_ & _ & Hch).
  unfold parse_simple. rewrite Hverb, Hstr.
  unfold bind at 1. unfold getenv_word. rewrite Hrun, E1, E2, E3, E4.
  change (false || false) with false. cbv iota.
  unfold bind at 1. unfold sys_fork. cbv beta. rewrite Hfork.
  unfold fork_world in Hchild. rewrite Hchild.
  replace (next_pid w =? -1) with false by (symmetry; apply Z.eqb_neq; lia).
  unfold bind, DIE, ret, sys_waitpid. cbn [children set_children].
  rewrite lookup_insert_eq.
  replace (next_pid w <? 0) with false by (symmetry; apply Z.ltb_ge; lia).
  simpl. rewrite Hch. reflexivity.
Qed.

Lemma exec_child_runs sc vs q w u q1 w1 st evs :
  solve_redirection sc q w = Ret u q1 w1 ->
  os_execvp w1 q1 (argv_of sc vs (env q)) = Some (st, evs) ->
  exec_child sc vs q w = Term st (exec_world (argv_of sc vs (env q)) evs w1).
Proof.
  intros Hred Hexec. unfold exec_child.
  rewrite (bind_Ret _ _ _ _ _ _ _ Hred).
  destruct (solve_redirection_frame _ _ _ _ _ _ Hred) as [(_ & Henv & _) _].
  unfold bind, sys_execvp. rewrite Henv. fold (argv_of sc vs (env q)).
  rewrite Hexec. reflexivity.
Qed.

Lemma exec_child_not_found sc vs q w u q1 w1 :
  solve_redirection sc q w = Ret u q1 w1 ->
  os_execvp w1 q1 (argv_of sc vs (env q)) = None ->
  exists msg,
    exec_child sc vs q w =
      Term (W_EXITCODE EXIT_FAILURE)
           (log (EvDiag msg) (log (EvExecvp (argv_of sc vs (env q)) false) w1)).
Proof.
  intros Hred Hexec. unfold exec_child. eexists.
  rewrite (bind_Ret _ _ _ _ _ _ _ Hred).
  destruct (solve_redirection_frame _ _ _ _ _ _ Hred) as [(_ & Henv & _) _].
  unfold bind, sys_execvp. rewrite Henv. fold (argv_of sc vs (env q)).
  rewrite Hexec. reflexivity.
Qed.

(** A redirection whose input target cannot be opened ends the process that
    runs it. *)
Lemma solve_redirection_input_fails sc i path p w :
  s_in sc = Some i ->
  w_string i = Some path ->
  os_open w (cwd p) path O_RDONLY = None ->
  solve_redirection sc p w =
    Term (W_EXITCODE DIE_STATUS)
         (log (EvDiag "in fd") (log (EvOpen path O_RDONLY None) w)).
Proof.
  intros Hin Hstr Hopen. unfold solve_redirection. rewrite Hin.
  destruct i as [s np nw]. simpl in Hstr. subst s.
  unfold bind, sys_open. rewrite Hopen. reflexivity.
Qed.

(** X6. An external command whose child gets through redirection and whose
    program is found: the shell returns [WEXITSTATUS] of the wait status
    with which the program ended (so 0 for a program killed by a signal,
    whose wait status is below 256), the program was started on the verb's
    own string followed by the expanded parameters, in a process that has
    the working directory and the environment of the shell, and the shell
    keeps both and has reaped the child. *)
Theorem external_command_status sc vb vs level father p w u q1 w1 st evs :
  verb sc = Some vb ->
  w_string vb = Some vs ->
  external_verb (get_word vb (env p)) ->
  os_fork_fails w = false ->
  0 <= next_pid w ->
  solve_redirection sc (set_children ∅ (saved p)) (fork_world w)
    = Ret u q1 w1 ->
  os_execvp w1 q1 (argv_of sc vs (env p)) = Some (st, evs) ->
  exists p',
    parse_simple (Some sc) level father p w =
      Ret (WEXITSTATUS st) p' (exec_world (argv_of sc vs (env p)) evs w1) /\
    (0 <= st < 256 -> WEXITSTATUS st = 0) /\
    cwd q1 = cwd p /\ env q1 = env p /\
    cwd p' = cwd p /\ env p' = env p /\
    children p' !! next_pid w = None.
Proof.
  intros Hverb Hstr Hext Hfork Hpid Hred Hexec.
  destruct (saved_same p) as (Hcwd & Henv & _).
  destruct (solve_redirection_frame _ _ _ _ _ _ Hred) as [(Qcwd & Qenv & _) _].
  simpl in Qcwd, Qenv.
  assert (Hchild : exec_child sc vs (set_children ∅ (saved p)) (fork_world w)
                   = Term st (exec_world (argv_of sc vs (env p)) evs w1)).
  { rewrite <- Henv.
    apply (exec_child_runs sc vs (set_children ∅ (saved p)) _ u q1 w1 st evs Hred).
    simpl. rewrite Henv. exact Hexec. }
  eexists. split.
  - apply (parse_simple_external_run _ _ _ _ _ _ _ _ _
             Hverb Hstr Hext Hfork Hpid Hchild).
  - split; [apply WEXITSTATUS_low|].
    split; [congruence|]. split; [congruence|]. simpl.
    split; [exact Hcwd|]. split; [exact Henv|]. apply lookup_delete_eq.
Qed.

(** X7. An external command whose program cannot be executed: the child
    reports it and exits with [EXIT_FAILURE], and the shell returns 1 and
    goes on, with its working directory and environment as before. *)
Theorem command_not_found sc vb vs level father p w u q1 w1 :
  verb sc = Some vb ->
  w_string vb = Some vs ->
  external_verb (get_word vb (env p)) ->
  os_fork_fails w = false ->
  0 <= next_pid w ->
  solve_redirection sc (set_children ∅ (saved p)) (fork_world w)
    = Ret u q1 w1 ->
  os_execvp w1 q1 (argv_of sc vs (env p)) = None ->
  exists p' msg,
    parse_simple (Some sc) level father p w =
      Ret 1 p' (log (EvDiag msg)
                    (log (EvExecvp (argv_of sc vs (env p)) false) w1)) /\
    cwd p' = cwd p /\ env p' = env p.
Proof.
  intros Hverb Hstr Hext Hfork Hpid Hred Hexec.
  destruct (saved_same p) as (Hcwd & Henv & _).
  destruct (exec_child_not_found sc vs (set_children ∅ (saved p)) _ u q1 w1 Hred)
    as (msg & Hchild).
  { simpl. rewrite Henv. exact Hexec. }
  simpl in Hchild. rewrite Henv in Hchild.
  eexists. exists msg. split.
  - rewrite (parse_simple_external_run _ _ _ _ _ _ _ _ _
               Hverb Hstr Hext Hfork Hpid Hchild).
    reflexivity.
  - simpl. split; assumption.
Qed.

(** X8. An external command for which [fork] fails ends the shell itself:
    the process terminates with the status of [DIE], after the diagnostic. *)
Theorem fork_failure_is_fatal sc vb vs level father p w :
  verb sc = Some vb ->
  w_string vb = Some vs ->
  external_verb (get_word vb (env p)) ->
  os_fork_fails w = true ->
  parse_simple (Some sc) level father p w =
    Term (W_EXITCODE DIE_STATUS) (log (EvDiag "fork") w).
Proof.
  intros Hverb Hstr (E1 & E2 & E3 & E4) Hfork.
  destruct (saved_run p w) as (a & b & c & _ & _ & _ & Hrun).
  unfold parse_simple. rewrite Hverb, Hstr.
  unfold bind at 1. unfold getenv_word. rewrite Hrun, E1, E2, E3, E4.
  change (false || false) with false. cbv iota.
  unfold bind at 1. unfold sys_fork. cbv beta. rewrite Hfork. reflexivity.
Qed.

(** X9. An external command whose input target cannot be opened: only the
    child dies, and the shell returns the status of [DIE] cut to eight
    bits. *)
Theorem external_redirection_failure sc vb vs level father p w i path :
  verb sc = Some vb ->
  w_string vb = Some vs ->
  external_verb (get_word vb (env p)) ->
  os_fork_fails w = false ->
  0 <= next_pid w ->
  s_in sc = Some i ->
  w_string i = Some path ->
  os_open (fork_world w) (cwd p) path O_RDONLY = None ->
  exists p',
    parse_simple (Some sc) level father p w =
      Ret (DIE_STATUS mod 256) p'
          (log (EvDiag "in fd") (log (EvOpen path O_RDONLY None) (fork_world w))) /\
    cwd p' = cwd p /\ env p' = env p.
Proof.
  intros Hverb Hstr Hext Hfork Hpid Hin Hpath Hopen.
  destruct (saved_same p) as (Hcwd & Henv & _).
  assert (Hchild : exec_child sc vs (set_children ∅ (saved p)) (fork_world w)
                   = Term (W_EXITCODE DIE_STATUS)
                          (log (EvDiag "in fd")
                               (log (EvOpen path O_RDONLY None) (fork_world w)))).
  { unfold exec_child.
    unfold bind at 1.
    rewrite (solve_redirection_input_fails sc i path _ _ Hin Hpath).
    - reflexivity.
    - simpl. rewrite Hcwd. exact Hopen. }
  eexists. split.
  - rewrite (parse_simple_external_run _ _ _ _ _ _ _ _ _
               Hverb Hstr Hext Hfork Hpid Hchild).
    rewrite WEXITSTATUS_W_EXITCODE. reflexivity.
  - simpl. split; assumption.
Qed.

(** X10. The built-in [cd] whose input target cannot be opened ends the
    shell itself: redirection runs in the shell's own process, and its
    failure is fatal there. *)
Theorem cd_redirection_failure sc vb vs level father p w i path :
  verb sc = Some vb ->
  w_string vb = Some vs ->
  get_word vb (env p) = "cd" ->
  s_in sc = Some i ->
  w_string i = Some path ->
  os_open w (cwd p) path O_RDONLY = None ->
  parse_simple (Some sc) level father p w =
    Term (W_EXITCODE DIE_STATUS)
         (log (EvDiag "in fd") (log (EvOpen path O_RDONLY None) w)).
Proof.
  intros Hverb Hstr Hcmd Hin Hpath Hopen.
  destruct (saved_run p w) as (a & b & c & _ & _ & _ & Hrun).
  destruct (saved_same p) as (Hcwd & _ & _).
  unfold parse_simple. rewrite Hverb, Hstr.
  unfold bind at 1. unfold getenv_word. rewrite Hrun, Hcmd.
  change (String.eqb "cd" "cd") with true. cbv iota.
  unfold bind at 1.
  rewrite (solve_redirection_input_fails sc i path _ _ Hin Hpath).
  - reflexivity.
  - rewrite Hcwd. exact Hopen.
Qed.

End External.

(** ** The parallel executor: what it leaves in the shell, and [fork]
    failures *)

Section ParallelMore.
Context {os : OS}.

Lemma run_in_parallel_frame (cmd1 cmd2 : interp) level father p w b p' w' :
  run_in_parallel cmd1 cmd2 level father p w = Ret b p' w' ->
  fds p' = fds p /\ cwd p' = cwd p /\ env p' = env p.
Proof.
  unfold run_in_parallel. intros H.
  inv_bind H as pid1 F1 at p1 w1.
  destruct (sys_fork_frame _ _ _ _ _ _ F1) as (A1 & B1 & C1).
  destruct (pid1 =? -1); [inv_ret H; auto|].
  inv_bind H as pid2 F2 at p2 w2.
  destruct (sys_fork_frame _ _ _ _ _ _ F2) as (A2 & B2 & C2).
  destruct (pid2 =? -1); [inv_ret H; repeat split; congruence|].
  inv_bind H as wt1 W1 at p3 w3. inv_bind H as wt2 W2 at p4 w4.
  destruct (sys_waitpid_frame _ _ _ _ _ _ W1) as (A3 & B3 & C3 & _).
  destruct (sys_waitpid_frame _ _ _ _ _ _ W2) as (A4 & B4 & C4 & _).
  cbv zeta in H. inv_bind H as st2 R2 at p5 w5.
  destruct (read_status_inv _ _ _ _ _ _ R2) as (_ & -> & _).
  destruct (WEXITSTATUS st2 =? 0).
  - inv_bind H as st1 R1 at p6 w6.
    destruct (read_status_inv _ _ _ _ _ _ R1) as (_ & -> & _).
    inv_ret H. repeat split; congruence.
  - inv_ret H. repeat split; congruence.
Qed.

(** X11. A PARALLEL node that returns gives 0 or 1 and nothing else, so
    never what a sub-tree returned, and leaves the shell its descriptor
    table, working directory and environment: whatever the two sub-trees
    did happened in the children. *)
Theorem parallel_node_isolated sc l r level father p w v p' w' :
  parse_command (Some (mk_command OP_PARALLEL sc l r)) level father p w
    = Ret v p' w' ->
  (v = 0 \/ v = 1) /\
  fds p' = fds p /\ cwd p' = cwd p /\ env p' = env p.
Proof.
  rewrite parse_command_parallel. intros H.
  inv_bind H as b Hb at p1 w1. inv_ret H. split.
  - destruct b; auto.
  - apply (run_in_parallel_frame _ _ _ _ _ _ _ _ _ Hb).
Qed.

(** X12. A PARALLEL node whose first [fork] fails runs nothing and returns
    0, the value a node returns when a child has failed. *)
Theorem parallel_first_fork_fails sc l r level father p w :
  os_fork_fails w = true ->
  parse_command (Some (mk_command OP_PARALLEL sc l r)) level father p w
    = Ret 0 p w.
Proof.
  intros Hfork. rewrite parse_command_parallel.
  unfold run_in_parallel, bind, sys_fork. rewrite Hfork. reflexivity.
Qed.

(** X13. A PARALLEL node whose second [fork] fails returns 0 at once: the
    first child has run, and its status stays in the table of children,
    never reaped. *)
Theorem parallel_second_fork_fails sc l r level father p w pid1 p1 w1 :
  let c := mk_command OP_PARALLEL sc l r in
  sys_fork (parallel_child (parse_command l) level (Some c)) p w
    = Ret pid1 p1 w1 ->
  pid1 <> -1 ->
  os_fork_fails w1 = true ->
  parse_command (Some c) level father p w = Ret 0 p1 w1 /\
  is_Some (children p1 !! pid1).
Proof.
  intros c F1 N1 Hfork. subst c. split.
  - rewrite parse_command_parallel. unfold run_in_parallel.
    rewrite bind_assoc, (bind_Ret _ _ _ _ _ _ _ F1).
    apply Z.eqb_neq in N1. rewrite bind_if, N1.
    unfold bind, sys_fork. rewrite Hfork.
    replace (-1 =? -1) with true by reflexivity. reflexivity.
  - destruct (sys_fork_inv _ _ _ _ _ _ (pid_mono_parallel_child _ _ _) F1 N1)
      as (_ & _ & st & ->).
    simpl. rewrite lookup_insert_eq. eauto.
Qed.

End ParallelMore.

(** ** The pipeline executor: descriptors, wiring and fatal failures *)

Section PipeMore.
Context {os : OS}.

(** A successful [pipe]: two fresh descriptions of one pipe on two
    descriptors that were free. *)
Lemma sys_pipe_inv p w rc d pp wp :
  sys_pipe p w = Ret (rc, d) pp wp ->
  (rc <? 0) = false ->
  os_pipe_fails w = false /\
  rc = 0 /\
  fds p !! des d READ = None /\
  fds p !! des d WRITE = None /\
  des d READ <> des d WRITE /\
  fds pp = <[des d WRITE := S (length (ofds w))]>
             (<[des d READ := length (ofds w)]> (fds p)) /\
  ofds wp = ofds w ++ [OfdPipeRead (length (ofds w));
                       OfdPipeWrite (length (ofds w))] /\
  same_but_fds p pp.
Proof.
  unfold sys_pipe. destruct (os_pipe_fails w).
  { intros [= <- _ _ _]. discriminate. }
  simpl. intros H Hrc. inversion H; subst. clear H. simpl.
  pose proof (lowest_free_is_free (fds p)) as F1.
  pose proof (lowest_free_is_free
                (<[lowest_free (fds p) := length (ofds w)]> (fds p))) as F2.
  assert (Hne : lowest_free (fds p) <>
                lowest_free (<[lowest_free (fds p) := length (ofds w)]> (fds p))).
  { intros E. rewrite <- E, lookup_insert_eq in F2. discriminate. }
  rewrite lookup_insert_ne in F2 by exact Hne.
  repeat split; try assumption.
  - rewrite length_app. simpl. replace (length (ofds w) + 1)%nat
      with (S (length (ofds w))) by lia. reflexivity.
  - rewrite <- app_assoc. reflexivity.
Qed.

Lemma sys_close_table fd p w r p' w' :
  sys_close fd p w = Ret r p' w' ->
  fds p' = delete fd (fds p) /\ cwd p' = cwd p /\ env p' = env p /\
  children p' = children p /\ w' = w.
Proof.
  unfold sys_close. destruct (fds p !! fd) eqn:E; intros H; inversion H; subst.
  - auto.
  - rewrite delete_id by exact E. auto.
Qed.

Lemma pipe_ends_closed (t : gmap Z nat) fr fw ir iw :
  t !! fr = None -> t !! fw = None ->
  delete fw (delete fr (<[fw := iw]> (<[fr := ir]> t))) = t.
Proof.
  intros Hr Hw. apply map_eq. intros k.
  destruct (decide (k = fw)) as [->|Kw].
  { rewrite lookup_delete_eq, Hw. reflexivity. }
  rewrite lookup_delete_ne by congruence.
  destruct (decide (k = fr)) as [->|Kr].
  { rewrite lookup_delete_eq, Hr. reflexivity. }
  rewrite lookup_delete_ne by congruence.
  rewrite lookup_insert_ne by congruence.
  rewrite lookup_insert_ne by congruence. reflexivity.
Qed.

(** After a failed [fork] the cleanup always ends in [DIE]. *)
Lemma pipe_cleanup_dies d pid p w b p' w' :
  pid = -1 ->
  (rc <- sys_close (des d READ) ;;
   DIE (rc <? 0) "close" ;;;
   rc <- sys_close (des d WRITE) ;;
   DIE (rc <? 0) "close" ;;;
   DIE (negb (pid =? 0)) "fork" ;;;
   ret (negb (EXIT_FAILURE =? 0))) p w = Ret b p' w' ->
  False.
Proof.
  intros -> H.
  inv_bind H as r1 C1 at p1 w1. inv_bind H as u1 D1 at p2 w2.
  inv_bind H as r2 C2 at p3 w3. inv_bind H as u2 D2 at p4 w4.
  inv_bind H as u3 D3 at p5 w5.
  apply DIE_inv in D3. destruct D3 as [D3 _]. discriminate.
Qed.

Lemma run_on_pipe_frame (cmd1 cmd2 : interp) level father p w b p' w' :
  run_on_pipe cmd1 cmd2 level father p w = Ret b p' w' ->
  fds p' = fds p /\ cwd p' = cwd p /\ env p' = env p.
Proof.
  unfold run_on_pipe. intros H.
  inv_bind H as piped P at pp wp. destruct piped as [rc d].
  inv_bind H as u D at p0 w0. apply DIE_inv in D. destruct D as (Hrc & -> & ->).
  destruct (sys_pipe_inv _ _ _ _ _ _ P Hrc)
    as (_ & _ & Fr & Fw & Hne & Epp & _ & (Cpp & Vpp & _)).
  inv_bind H as pid1 F1 at p1 w1.
  destruct (sys_fork_frame _ _ _ _ _ _ F1) as (A1 & B1 & C1).
  destruct (pid1 =? -1) eqn:E1.
  { exfalso. apply Z.eqb_eq in E1.
    exact (pipe_cleanup_dies _ _ _ _ _ _ _ E1 H). }
  inv_bind H as pid2 F2 at p2 w2.
  destruct (sys_fork_frame _ _ _ _ _ _ F2) as (A2 & B2 & C2).
  destruct (pid2 =? -1) eqn:E2.
  { exfalso. apply Z.eqb_eq in E2.
    exact (pipe_cleanup_dies _ _ _ _ _ _ _ E2 H). }
  inv_bind H as r1 X1 at p3 w3. inv_bind H as r2 X2 at p4 w4.
  destruct (sys_close_table _ _ _ _ _ _ X1) as (A3 & B3 & C3 & _).
  destruct (sys_close_table _ _ _ _ _ _ X2) as (A4 & B4 & C4 & _).
  inv_bind H as wt1 W1 at p5 w5. inv_bind H as wt2 W2 at p6 w6.
  destruct (sys_waitpid_frame _ _ _ _ _ _ W1) as (A5 & B5 & C5 & _).
  destruct (sys_waitpid_frame _ _ _ _ _ _ W2) as (A6 & B6 & C6 & _).
  cbv zeta in H. inv_bind H as st1 R1 at p7 w7.
  destruct (read_status_inv _ _ _ _ _ _ R1) as (_ & -> & _).
  assert (Hfds : fds p6 = fds p).
  { rewrite A6, A5, A4, A3, A2, A1, Epp.
    apply pipe_ends_closed.
    - exact Fr.
    - exact Fw. }
  destruct (WEXITSTATUS st1 =? 0).
  - inv_bind H as st2 R2 at p8 w8.
    destruct (read_status_inv _ _ _ _ _ _ R2) as (_ & -> & _).
    inv_ret H. repeat split; congruence.
  - inv_ret H. repeat split; congruence.
Qed.

(** X14. A PIPE node that returns gives 0 or 1 and nothing else, and leaves
    the shell its descriptor table exactly as it was (both ends of the pipe
    are closed again), with its working directory and environment. *)
Theorem pipe_node_isolated sc l r level father p w v p' w' :
  parse_command (Some (mk_command OP_PIPE sc l r)) level father p w
    = Ret v p' w' ->
  (v = 0 \/ v = 1) /\
  fds p' = fds p /\ cwd p' = cwd p /\ env p' = env p.
Proof.
  rewrite parse_command_pipe. intros H.
  inv_bind H as b Hb at p1 w1. inv_ret H. split.
  - destruct b; auto.
  - apply (run_on_pipe_frame _ _ _ _ _ _ _ _ _ Hb).
Qed.

(** X15. A PIPE node for which [pipe] fails ends the shell itself, before
    anything is forked. *)
Theorem pipe_creation_failure_is_fatal sc l r level father p w :
  os_pipe_fails w = true ->
  parse_command (Some (mk_command OP_PIPE sc l r)) level father p w
    = Term (W_EXITCODE DIE_STATUS) (log (EvDiag "pipe") w).
Proof.
  intros Hpipe. rewrite parse_command_pipe.
  unfold run_on_pipe, bind, sys_pipe. rewrite Hpipe. reflexivity.
Qed.

(** X16. A PIPE node whose first [fork] fails ends the shell itself, where a
    PARALLEL node returns: both ends of the pipe are closed, then [DIE]
    fires on the process identifier -1. *)
Theorem pipe_fork_failure_is_fatal sc l r level father p w rc d pp wp :
  sys_pipe p w = Ret (rc, d) pp wp ->
  0 <= rc ->
  os_fork_fails wp = true ->
  parse_command (Some (mk_command OP_PIPE sc l r)) level father p w
    = Term (W_EXITCODE DIE_STATUS) (log (EvDiag "fork") wp).
Proof.
  intros P Hrc Hfork. apply Z.ltb_ge in Hrc.
  destruct (sys_pipe_inv _ _ _ _ _ _ P Hrc)
    as (_ & _ & Fr & Fw & Hne & Epp & _ & _).
  rewrite parse_command_pipe. unfold run_on_pipe.
  rewrite bind_assoc, (bind_Ret _ _ _ _ _ _ _ P). cbv beta iota.
  rewrite Hrc. change (DIE false "pipe") with (ret tt).
  rewrite bind_assoc, bind_ret_l.
  unfold bind at 1 2. unfold sys_fork. rewrite Hfork.
  replace (-1 =? -1) with true by reflexivity. cbv iota.
  unfold bind, sys_close. cbn [fds set_fds]. rewrite Epp.
  rewrite lookup_insert_ne by congruence. rewrite lookup_insert_eq.
  cbn [Z.ltb Z.compare DIE ret fds set_fds].
  rewrite lookup_delete_ne by congruence. rewrite lookup_insert_eq.
  reflexivity.
Qed.

End PipeMore.

Section PipeWiring.
Context {os : OS}.

Lemma sys_close_open fd id p w :
  fds p !! fd = Some id ->
  sys_close fd p w = Ret 0 (set_fds (delete fd (fds p)) p) w.
Proof. intros H. unfold sys_close. rewrite H. reflexivity. Qed.

Lemma sys_dup2_open oldfd newfd id p w :
  fds p !! oldfd = Some id -> 0 <= newfd ->
  sys_dup2 oldfd newfd p w = Ret newfd (set_fds (<[newfd := id]> (fds p)) p) w.
Proof.
  intros H Hn. unfold sys_dup2. rewrite H.
  replace (newfd <? 0) with false by (symmetry; apply Z.ltb_ge; lia).
  reflexivity.
Qed.

(** X17. The two children of a PIPE node, forked from a shell whose
    descriptors 0 and 1 are open, run their sub-trees like the children of
    a PARALLEL node but on rewired descriptors: the first has the write end
    of the pipe as its descriptor 1, the second has the read end of the same
    pipe as its descriptor 0, and in both the two descriptors that [pipe]
    handed out are closed. *)
Theorem pipe_children_wiring (cmd1 cmd2 : interp) level father p w rc d pp wp :
  sys_pipe p w = Ret (rc, d) pp wp ->
  0 <= rc ->
  is_Some (fds p !! STDIN_FILENO) ->
  is_Some (fds p !! STDOUT_FILENO) ->
  let n := length (ofds w) in
  let q1 := delete (des d WRITE)
              (<[STDOUT_FILENO := S n]> (delete (des d READ) (fds pp))) in
  let q2 := delete (des d READ)
              (<[STDIN_FILENO := n]> (delete (des d WRITE) (fds pp))) in
  (forall pc w0, fds pc = fds pp ->
     pipe_child1 d cmd1 level father pc w0 =
       parallel_child cmd1 level father (set_fds q1 pc) w0) /\
  (forall pc w0, fds pc = fds pp ->
     pipe_child2 d cmd2 level father pc w0 =
       parallel_child cmd2 level father (set_fds q2 pc) w0) /\
  q1 !! STDOUT_FILENO = Some (S n) /\
  ofds wp !! S n = Some (OfdPipeWrite n) /\
  q2 !! STDIN_FILENO = Some n /\
  ofds wp !! n = Some (OfdPipeRead n) /\
  q1 !! des d READ = None /\ q1 !! des d WRITE = None /\
  q2 !! des d READ = None /\ q2 !! des d WRITE = None.
Proof.
  intros P Hrc [x0 H0] [x1 H1] n q1 q2. apply Z.ltb_ge in Hrc.
  destruct (sys_pipe_inv _ _ _ _ _ _ P Hrc)
    as (_ & _ & Fr & Fw & Hne & Epp & Eofds & _).
  fold n in Epp, Eofds.
  assert (R0 : des d READ <> STDIN_FILENO) by (intros E; congruence).
  assert (R1 : des d READ <> STDOUT_FILENO) by (intros E; congruence).
  assert (W0 : des d WRITE <> STDIN_FILENO) by (intros E; congruence).
  assert (W1 : des d WRITE <> STDOUT_FILENO) by (intros E; congruence).
  assert (Lr : fds pp !! des d READ = Some n).
  { rewrite Epp, lookup_insert_ne by congruence. apply lookup_insert_eq. }
  assert (Lw : fds pp !! des d WRITE = Some (S n)).
  { rewrite Epp. apply lookup_insert_eq. }
  split; [|split].
  - intros pc w0 Hpc. unfold pipe_child1, parallel_child, q1.
    rewrite <- Hpc in Lr, Lw. rewrite <- Hpc.
    set (pa := set_fds (delete (des d READ) (fds pc)) pc).
    assert (La : fds pa !! des d WRITE = Some (S n)).
    { unfold pa. cbn [fds set_fds].
      rewrite lookup_delete_ne by congruence. exact Lw. }
    set (pb := set_fds (<[STDOUT_FILENO := S n]> (fds pa)) pa).
    assert (Lb : fds pb !! des d WRITE = Some (S n)).
    { unfold pb. cbn [fds set_fds].
      rewrite lookup_insert_ne by congruence. exact La. }
    rewrite (bind_Ret _ _ _ _ _ _ _ (sys_close_open _ _ pc w0 Lr)).
    rewrite (bind_Ret _ _ _ _ _ _ _
               (sys_dup2_open _ STDOUT_FILENO _ pa w0 La ltac:(discriminate))).
    rewrite (bind_Ret _ _ _ _ _ _ _ (sys_close_open _ _ pb w0 Lb)).
    reflexivity.
  - intros pc w0 Hpc. unfold pipe_child2, parallel_child, q2.
    rewrite <- Hpc in Lr, Lw. rewrite <- Hpc.
    set (pa := set_fds (delete (des d WRITE) (fds pc)) pc).
    assert (La : fds pa !! des d READ = Some n).
    { unfold pa. cbn [fds set_fds].
      rewrite lookup_delete_ne by congruence. exact Lr. }
    set (pb := set_fds (<[STDIN_FILENO := n]> (fds pa)) pa).
    assert (Lb : fds pb !! des d READ = Some n).
    { unfold pb. cbn [fds set_fds].
      rewrite lookup_insert_ne by congruence. exact La. }
    rewrite (bind_Ret _ _ _ _ _ _ _ (sys_close_open _ _ pc w0 Lw)).
    rewrite (bind_Ret _ _ _ _ _ _ _
               (sys_dup2_open _ STDIN_FILENO _ pa w0 La ltac:(discriminate))).
    rewrite (bind_Ret _ _ _ _ _ _ _ (sys_close_open _ _ pb w0 Lb)).
    reflexivity.
  - unfold q1, q2. repeat split.
    + rewrite lookup_delete_ne by congruence. apply lookup_insert_eq.
    + rewrite Eofds. change (S n) with (S (length (ofds w))).
      rewrite lookup_app_r by lia.
      replace (S (length (ofds w)) - length (ofds w))%nat with 1%nat by lia.
      reflexivity.
    + rewrite lookup_delete_ne by congruence. apply lookup_insert_eq.
    + rewrite Eofds. unfold n. rewrite lookup_app_r by lia.
      replace (length (ofds w) - length (ofds w))%nat with 0%nat by lia.
      reflexivity.
    + rewrite lookup_delete_ne by congruence.
      rewrite lookup_insert_ne by congruence. apply lookup_delete_eq.
    + apply lookup_delete_eq.
    + apply lookup_delete_eq.
    + rewrite lookup_delete_ne by congruence.
      rewrite lookup_insert_ne by congruence. apply lookup_delete_eq.
Qed.

End PipeWiring.

(** ** The values the interpreter returns *)

Section InterpreterRange.
Context {os : OS}.

(** The values of [parse_simple], by branch. *)
Lemma parse_simple_values s level father p w v p' w' :
  parse_simple s level father p w = Ret v p' w' ->
  0 <= v <= 255 \/ v = SHELL_EXIT \/ v = -1.
Proof.
  unfold parse_simple. intros H.
  destruct s as [sc|]; [|inv_ret H; auto].
  destruct (verb sc) as [vb|]; [|discriminate].
  destruct (w_string vb) as [vs|]; [|inv_ret H; auto].
  inv_bind H as cmd Ecmd. inv_bind H as saved_stdin E0.
  inv_bind H as saved_stdout E1. inv_bind H as saved_stderr E2.
  destruct (String.eqb cmd "cd").
  { inv_bind H as u Er. inv_bind H as res Ecd. inv_bind H as u' Eb.
    inv_ret H. left. destruct res; lia. }
  destruct (String.eqb cmd "exit" || String.eqb cmd "quit").
  { inv_ret H. auto. }
  destruct (strchr cmd "=").
  { destruct (strtok_r (list_ascii_of_string cmd) "=") as [name save].
    destruct (strtok_r save "=") as [value save'].
    destruct name as [name|]; [destruct value as [value|]|];
      try solve [inv_ret H; auto].
    inv_bind H as result Eset. inv_ret H.
    destruct (setenv_result _ _ _ _ _ _ _ _ Eset) as [->| ->];
      [left; lia|auto]. }
  inv_bind H as pid Efork. inv_bind H as u Edie.
  inv_bind H as waited Ewait. destruct waited as [wait_ret status].
  inv_bind H as u' Edie'. inv_bind H as st Est.
  inv_ret H. left. apply WEXITSTATUS_range.
Qed.

(** X18. Whatever tree is interpreted, a value [parse_command] returns is
    an exit status between 0 and 255, the sentinel, or -1. *)
Theorem parse_command_result_range c level father p w v p' w' :
  parse_command c level father p w = Ret v p' w' ->
  0 <= v <= 255 \/ v = SHELL_EXIT \/ v = -1.
Proof.
  destruct c as [c|]; [|intros H; inv_ret H; left; lia].
  revert level father p w v p' w'.
  induction c as [o sc c1 c2 IH1 IH2] using command_t_induction.
  intros level father p w v p' w'.
  assert (H2 : forall l f q x y q' x',
             parse_command c2 l f q x = Ret y q' x' ->
             0 <= y <= 255 \/ y = SHELL_EXIT \/ y = -1).
  { intros l f q x y q' x' H. destruct c2 as [n|].
    - exact (IH2 _ _ _ _ _ _ _ H).
    - inv_ret H. left. lia. }
  destruct o.
  - rewrite parse_command_leaf. apply parse_simple_values.
  - rewrite parse_command_sequential. intros H.
    inv_bind H as vl Hl at p1 w1. exact (H2 _ _ _ _ _ _ _ H).
  - rewrite parse_command_parallel. intros H.
    inv_bind H as b Hb at p1 w1. inv_ret H. left. destruct b; simpl; lia.
  - rewrite parse_command_zero. intros H.
    inv_bind H as vl Hl at p1 w1.
    destruct (vl =? 0); [exact (H2 _ _ _ _ _ _ _ H)|inv_ret H; left; lia].
  - rewrite parse_command_nzero. intros H.
    inv_bind H as vl Hl at p1 w1.
    destruct (negb (vl =? 0)); [exact (H2 _ _ _ _ _ _ _ H)|inv_ret H; left; lia].
  - rewrite parse_command_pipe. intros H.
    inv_bind H as b Hb at p1 w1. inv_ret H. left. destruct b; simpl; lia.
  - intros H. inv_ret H. auto.
Qed.

End InterpreterRange.

(** ** Redirection: the flags of the two output streams *)

Section RedirectionFlags.
Context {os : OS}.

(** [solve_redirection] with an output and an error target, step by step. *)
Lemma solve_redirection_out_err s o e po pe p w u p' w' :
  s_out s = Some o -> w_string o = Some po ->
  s_err s = Some e -> w_string e = Some pe ->
  solve_redirection s p w = Ret u p' w' ->
  exists p1 w1 ino1 ino2,
    (p1 = p \/ p1 = redirected STDIN_FILENO p w) /\
    (s_in s = None -> w1 = w) /\
    os_open w1 (cwd p1) po (out_flags s) = Some ino1 /\
    let p2 := redirected STDOUT_FILENO p1 w1 in
    let w2 := opened po (out_flags s) ino1 w1 in
    os_open w2 (cwd p2) pe (err_flags s) = Some ino2 /\
    let p3 := redirected STDERR_FILENO p2 w2 in
    w' = opened pe (err_flags s) ino2 w2 /\
    (po <> pe -> p' = p3) /\
    (po = pe ->
     forall id, fds p3 !! STDOUT_FILENO = Some id ->
                p' = set_fds (<[STDERR_FILENO := id]> (fds p3)) p3).
Proof.
  intros Ho Hpo He Hpe H. unfold solve_redirection in H.
  inv_bind H as u1 Hin at p1 w1. inv_bind H as u2 Hout at p2 w2.
  inv_bind H as u3 Herr at p3 w3.
  apply redirect_opt_inv in Hin; [|unfold STDIN_FILENO; lia].
  apply redirect_opt_inv in Hout; [|unfold STDOUT_FILENO; lia].
  apply redirect_opt_inv in Herr; [|unfold STDERR_FILENO; lia].
  destruct Hout as [(_ & _ & Hnone)|(x & path & ino1 & Hx & Hpath & Hos1 & -> & ->)].
  { specialize (Hnone o Ho). congruence. }
  destruct Herr as [(_ & _ & Hnone)|(x' & path' & ino2 & Hx' & Hpath' & Hos2 & -> & ->)].
  { specialize (Hnone e He). congruence. }
  assert (path = po) by congruence. assert (path' = pe) by congruence.
  subst path path'.
  exists p1, w1, ino1, ino2.
  split.
  { destruct Hin as [(-> & _)|(? & ? & ? & _ & _ & _ & -> & _)]; auto. }
  split.
  { intros Hnin. destruct Hin as [(_ & -> & _)|(? & ? & ? & Hs & _)];
      [reflexivity|congruence]. }
  split; [exact Hos1|]. cbv zeta. split; [exact Hos2|].
  rewrite Ho, He, Hpo, Hpe in H.
  destruct (String.eqb_spec po pe) as [Heq|Hne].
  - split; [|split; [congruence|]].
    + inv_bind H as r D at p4 w4. inv_ret H.
      destruct (sys_dup2_inv _ _ _ _ _ _ _ D) as [_ ->]. reflexivity.
    + intros _ id Hid. inv_bind H as r D at p4 w4. inv_ret H.
      rewrite (sys_dup2_open STDOUT_FILENO STDERR_FILENO id _ _ Hid
                 ltac:(discriminate)) in D.
      inversion D. reflexivity.
  - inv_ret H. split; [reflexivity|]. split; [reflexivity|congruence].
Qed.

(** X19. With an output and an error target on different path strings and
    descriptors 1 and 2 open, [solve_redirection] leaves descriptor 1 on a
    description opened with create, write-only and append or truncate as
    the output bit of [io_flags] says, and descriptor 2 on another one whose
    append or truncate follows the error bit alone. *)
Theorem redirection_flags_per_stream s o e po pe p w u p' w' :
  s_out s = Some o -> w_string o = Some po ->
  s_err s = Some e -> w_string e = Some pe ->
  po <> pe ->
  is_Some (fds p !! STDOUT_FILENO) ->
  is_Some (fds p !! STDERR_FILENO) ->
  solve_redirection s p w = Ret u p' w' ->
  exists i1 i2 ino1 ino2,
    i1 <> i2 /\
    fds p' !! STDOUT_FILENO = Some i1 /\
    ofds w' !! i1 = Some (OfdFile ino1 (out_flags s)) /\
    fds p' !! STDERR_FILENO = Some i2 /\
    ofds w' !! i2 = Some (OfdFile ino2 (err_flags s)).
Proof.
  intros Ho Hpo He Hpe Hne H1 H2 H.
  destruct (solve_redirection_out_err _ _ _ _ _ _ _ _ _ _ Ho Hpo He Hpe H)
    as (p1 & w1 & ino1 & ino2 & Hp1 & _ & _ & _ & -> & Hp' & _).
  rewrite (Hp' Hne). clear Hp'.
  assert (A1 : is_Some (fds p1 !! STDOUT_FILENO)).
  { destruct Hp1 as [->| ->]; [exact H1|].
    rewrite redirected_lookup_other; [exact H1|discriminate|exact H1]. }
  assert (A2 : is_Some (fds p1 !! STDERR_FILENO)).
  { destruct Hp1 as [->| ->]; [exact H2|].
    rewrite redirected_lookup_other; [exact H2|discriminate|exact H2]. }
  set (p2 := redirected STDOUT_FILENO p1 w1).
  set (w2 := opened po (out_flags s) ino1 w1).
  assert (B1 : fds p2 !! STDOUT_FILENO = Some (length (ofds w1)))
    by (apply redirected_lookup_std, A1).
  assert (B2 : is_Some (fds p2 !! STDERR_FILENO)).
  { unfold p2. rewrite redirected_lookup_other; [exact A2|discriminate|exact A2]. }
  assert (Hlen : length (ofds w2) = S (length (ofds w1))).
  { unfold w2. rewrite opened_ofds, length_app. simpl. lia. }
  exists (length (ofds w1)), (length (ofds w2)), ino1, ino2.
  split; [lia|]. split; [|split; [|split]].
  - rewrite redirected_lookup_other; [exact B1|discriminate|rewrite B1; eauto].
  - rewrite opened_ofds. unfold w2. rewrite opened_ofds, <- app_assoc.
    apply list_lookup_middle. reflexivity.
  - apply redirected_lookup_std, B2.
  - rewrite opened_ofds. apply list_lookup_middle. reflexivity.
Qed.


End RedirectionFlags.

(** ** The further properties on concrete inputs *)

Section MoreExamples.
Import Demo.
Local Existing Instance demo_os.

Lemma std_open_p0 : std_open p0.
Proof. repeat split; exists 0%nat; reflexivity. Qed.

(** [cmd > f 2> g] *)
Lemma redirection_touches_only_std_witness :
  let s := mk_simple (Some (word "true")) None None
                     (Some (word "f")) (Some (word "g")) 0 in
  exists p' w',
    solve_redirection s p0 w0 = Ret tt p' w' /\
    dom (fds p') = dom (fds p0).
Proof.
  intros s.
  eassert (H : solve_redirection s p0 w0 = Ret tt _ _)
    by (vm_compute; reflexivity).
  eexists _, _. split; [exact H|].
  exact (proj1 (proj2 (proj2
           (redirection_touches_only_std (os := demo_os)
              s p0 w0 tt _ _ std_open_p0 H)))).
Defined.

(** [cd /tmp > f 2> f] *)
Lemma cd_restores_descriptors_witness :
  let sc := mk_simple (Some (word "cd")) (Some (word "/tmp")) None
                      (Some (word "f")) (Some (word "f")) 0 in
  exists r p' w',
    parse_simple (Some sc) 0 None p0 w0 = Ret r p' w' /\
    fds p' = fds p0 /\ env p' = env p0 /\ children p' = children p0.
Proof.
  intros sc.
  eassert (H : parse_simple (Some sc) 0 None p0 w0 = Ret _ _ _)
    by (vm_compute; reflexivity).
  eexists _, _, _. split; [exact H|].
  exact (cd_restores_descriptors (os := demo_os) sc (word "cd") "cd" 0 None
           p0 w0 _ _ _ eq_refl eq_refl eq_refl std_open_p0 H).
Defined.

Lemma saved_descriptors_stay_open_witness :
  exists r p' w',
    parse_simple (Some (simple "true" None)) 0 None p0 w0 = Ret r p' w' /\
    size (fds p') = S (S (S (size (fds p0)))).
Proof.
  eassert (H : parse_simple (Some (simple "true" None)) 0 None p0 w0 = Ret _ _ _)
    by (vm_compute; reflexivity).
  eexists _, _, _. split; [exact H|].
  exact (proj2 (saved_descriptors_stay_open (os := demo_os)
                  (simple "true" None) (word "true") "true" 0 None
                  p0 w0 _ _ _ eq_refl eq_refl eq_refl std_open_p0 H)).
Defined.

(** [exit > f]: the target is not opened. *)
Lemma exit_bypasses_redirection_witness :
  let sc := mk_simple (Some (word "exit")) None None (Some (word "f")) None 0 in
  parse_simple (Some sc) 0 None p0 w0 = Ret SHELL_EXIT (saved p0) w0.
Proof.
  intros sc.
  exact (proj1 (exit_bypasses_redirection (os := demo_os) sc (word "exit") "exit"
                  0 None p0 w0 eq_refl eq_refl (or_introl eq_refl))).
Defined.

(** The verb [=A=b]: the leading '=' is skipped and [A] is set to [b]. *)
Lemma assignment_result_witness :
  parse_simple (Some (simple "=A=b" None)) 0 None p0 w0 =
    Ret 0 (set_env (<["A" := "b"]> (env p0)) (saved p0)) w0.
Proof.
  pose proof (assignment_result (os := demo_os) (simple "=A=b" None)
                (word "=A=b") "=A=b" 0 None p0 w0 eq_refl eq_refl eq_refl) as T.
  change (assignment_parts (get_word (word "=A=b") (env p0)))
    with (Some ("A", "b")) in T.
  exact (proj2 (proj2 (proj2 (proj2 T)))).
Defined.

Lemma external_command_status_witness :
  exists p' w',
    parse_simple (Some (simple "false" None)) 0 None p0 w0 = Ret 1 p' w'.
Proof.
  eassert (R : solve_redirection (simple "false" None)
                 (set_children ∅ (saved p0)) (fork_world w0) = Ret tt _ _)
    by (vm_compute; reflexivity).
  destruct (external_command_status (os := demo_os) (simple "false" None)
              (word "false") "false" 0 None p0 w0 tt _ _ (W_EXITCODE 1) []
              eq_refl eq_refl ltac:(repeat split) eq_refl ltac:(discriminate)
              R eq_refl)
    as (p' & E & _).
  eexists _, _. exact E.
Defined.

Lemma command_not_found_witness :
  exists p' w',
    parse_simple (Some (simple "nonesuch" None)) 0 None p0 w0 = Ret 1 p' w'.
Proof.
  eassert (R : solve_redirection (simple "nonesuch" None)
                 (set_children ∅ (saved p0)) (fork_world w0) = Ret tt _ _)
    by (vm_compute; reflexivity).
  destruct (command_not_found (os := demo_os) (simple "nonesuch" None)
              (word "nonesuch") "nonesuch" 0 None p0 w0 tt _ _
              eq_refl eq_refl ltac:(repeat split) eq_refl ltac:(discriminate)
              R eq_refl)
    as (p' & msg & E & _).
  eexists _, _. exact E.
Defined.

Lemma fork_failure_is_fatal_witness :
  parse_simple (os := Scarce.limited_os 100) (Some (simple "true" None))
               0 None p0 w0
    = Term (W_EXITCODE EXIT_FAILURE) (log (EvDiag "fork") w0).
Proof.
  exact (fork_failure_is_fatal (os := Scarce.limited_os 100)
           (simple "true" None) (word "true") "true" 0 None p0 w0
           eq_refl eq_refl ltac:(repeat split) eq_refl).
Defined.

(** [true < missing] *)
Lemma external_redirection_failure_witness :
  let sc := mk_simple (Some (word "true")) None (Some (word "missing"))
                      None None 0 in
  exists p' w', parse_simple (Some sc) 0 None p0 w0 = Ret 1 p' w'.
Proof.
  intros sc.
  destruct (external_redirection_failure (os := demo_os) sc (word "true") "true"
              0 None p0 w0 (word "missing") "missing"
              eq_refl eq_refl ltac:(repeat split) eq_refl ltac:(discriminate)
              eq_refl eq_refl eq_refl)
    as (p' & E & _).
  eexists _, _. exact E.
Defined.

(** [cd < missing] *)
Lemma cd_redirection_failure_witness :
  let sc := mk_simple (Some (word "cd")) None (Some (word "missing"))
                      None None 0 in
  parse_simple (Some sc) 0 None p0 w0 =
    Term (W_EXITCODE EXIT_FAILURE)
         (log (EvDiag "in fd") (log (EvOpen "missing" O_RDONLY None) w0)).
Proof.
  intros sc.
  exact (cd_redirection_failure (os := demo_os) sc (word "cd") "cd" 0 None
           p0 w0 (word "missing") "missing"
           eq_refl eq_refl eq_refl eq_refl eq_refl eq_refl).
Defined.

(** [cd /tmp & true]: the directory change stays in the child. *)
Lemma parallel_node_isolated_witness :
  let c := mk_command OP_PARALLEL None
             (Some (mk_command OP_NONE
                      (Some (simple "cd" (Some (word "/tmp")))) None None))
             (leaf "true") in
  exists v p' w',
    parse_command (Some c) 0 None p0 w0 = Ret v p' w' /\
    (v = 0 \/ v = 1) /\ fds p' = fds p0 /\ cwd p' = cwd p0 /\ env p' = env p0.
Proof.
  intros c.
  eassert (H : parse_command (Some c) 0 None p0 w0 = Ret _ _ _)
    by (vm_compute; reflexivity).
  eexists _, _, _. split; [exact H|].
  exact (parallel_node_isolated (os := demo_os) None _ _ 0 None p0 w0 _ _ _ H).
Defined.

Lemma parallel_first_fork_fails_witness :
  parse_command (os := Scarce.limited_os 100)
                (node OP_PARALLEL (leaf "true") (leaf "true")) 0 None p0 w0
    = Ret 0 p0 w0.
Proof.
  exact (parallel_first_fork_fails (os := Scarce.limited_os 100)
           None (leaf "true") (leaf "true") 0 None p0 w0 eq_refl).
Defined.

Lemma parallel_second_fork_fails_witness :
  let c := mk_command OP_PARALLEL None (leaf "true") (leaf "true") in
  exists p1 w1,
    parse_command (os := Scarce.limited_os 101) (Some c) 0 None p0 w0
      = Ret 0 p1 w1 /\
    is_Some (children p1 !! 100).
Proof.
  intros c.
  eassert (F : sys_fork (os := Scarce.limited_os 101)
                 (parallel_child (parse_command (os := Scarce.limited_os 101)
                                    (leaf "true")) 0 (Some c))
                 p0 w0 = Ret 100 _ _)
    by (vm_compute; reflexivity).
  eexists _, _.
  exact (parallel_second_fork_fails (os := Scarce.limited_os 101)
           None (leaf "true") (leaf "true") 0 None p0 w0 100 _ _
           F ltac:(discriminate) eq_refl).
Defined.

Lemma pipe_node_isolated_witness :
  exists v p' w',
    parse_command (node OP_PIPE (leaf "true") (leaf "false")) 0 None p0 w0
      = Ret v p' w' /\
    (v = 0 \/ v = 1) /\ fds p' = fds p0 /\ cwd p' = cwd p0 /\ env p' = env p0.
Proof.
  eassert (H : parse_command (node OP_PIPE (leaf "true") (leaf "false"))
                 0 None p0 w0 = Ret _ _ _)
    by (vm_compute; reflexivity).
  eexists _, _, _. split; [exact H|].
  exact (pipe_node_isolated (os := demo_os) None _ _ 0 None p0 w0 _ _ _ H).
Defined.

Lemma pipe_creation_failure_is_fatal_witness :
  parse_command (os := Scarce.no_pipe_os)
                (node OP_PIPE (leaf "true") (leaf "true")) 0 None p0 w0
    = Term (W_EXITCODE EXIT_FAILURE) (log (EvDiag "pipe") w0).
Proof.
  exact (pipe_creation_failure_is_fatal (os := Scarce.no_pipe_os)
           None (leaf "true") (leaf "true") 0 None p0 w0 eq_refl).
Defined.

Lemma pipe_fork_failure_is_fatal_witness :
  exists wp,
    parse_command (os := Scarce.limited_os 100)
                  (node OP_PIPE (leaf "true") (leaf "true")) 0 None p0 w0
      = Term (W_EXITCODE EXIT_FAILURE) (log (EvDiag "fork") wp).
Proof.
  eassert (P : sys_pipe (os := Scarce.limited_os 100) p0 w0
               = Ret (0, (3, 4)) _ _)
    by (vm_compute; reflexivity).
  eexists.
  exact (pipe_fork_failure_is_fatal (os := Scarce.limited_os 100)
           None (leaf "true") (leaf "true") 0 None p0 w0 0 (3, 4) _ _
           P ltac:(discriminate) eq_refl).
Defined.

Lemma pipe_children_wiring_witness :
  exists pp wp,
    sys_pipe p0 w0 = Ret (0, (3, 4)) pp wp /\
    ofds wp !! 2%nat = Some (OfdPipeWrite 1) /\
    ofds wp !! 1%nat = Some (OfdPipeRead 1).
Proof.
  eassert (P : sys_pipe p0 w0 = Ret (0, (3, 4)) _ _)
    by (vm_compute; reflexivity).
  eexists _, _. split; [exact P|].
  pose proof (pipe_children_wiring (os := demo_os)
                (parse_command (leaf "true")) (parse_command (leaf "true"))
                0 None p0 w0 0 (3, 4) _ _ P ltac:(discriminate)
                (ex_intro _ 0%nat eq_refl) (ex_intro _ 0%nat eq_refl)) as T.
  cbv zeta in T.
  destruct T as (_ & _ & _ & T1 & _ & T2 & _).
  split; [exact T1|exact T2].
Defined.

Lemma parse_command_result_range_witness :
  exists v p' w',
    parse_command (node OP_SEQUENTIAL (leaf "A=") (leaf "false")) 0 None p0 w0
      = Ret v p' w' /\
    (0 <= v <= 255 \/ v = SHELL_EXIT \/ v = -1).
Proof.
  eassert (H : parse_command (node OP_SEQUENTIAL (leaf "A=") (leaf "false"))
                 0 None p0 w0 = Ret _ _ _)
    by (vm_compute; reflexivity).
  eexists _, _, _. split; [exact H|].
  exact (parse_command_result_range (os := demo_os) _ _ _ _ _ _ _ _ H).
Defined.

(** [cmd > f 2>> g] *)
Lemma redirection_flags_per_stream_witness :
  let s := mk_simple (Some (word "true")) None None
                     (Some (word "f")) (Some (word "g")) 2 in
  exists p' w' i1 i2 ino1 ino2,
    solve_redirection s p0 w0 = Ret tt p' w' /\
    fds p' !! STDOUT_FILENO = Some i1 /\
    ofds w' !! i1 = Some (OfdFile ino1 577) /\
    fds p' !! STDERR_FILENO = Some i2 /\
    ofds w' !! i2 = Some (OfdFile ino2 1089).
Proof.
  intros s.
  eassert (H : solve_redirection s p0 w0 = Ret tt _ _)
    by (vm_compute; reflexivity).
  destruct (redirection_flags_per_stream (os := demo_os) s (word "f") (word "g")
              "f" "g" p0 w0 tt _ _ eq_refl eq_refl eq_refl eq_refl
              ltac:(discriminate) (ex_intro _ 0%nat eq_refl)
              (ex_intro _ 0%nat eq_refl) H)
    as (i1 & i2 & ino1 & ino2 & _ & A & B & C & D).
  eexists _, _, i1, i2, ino1, ino2.
  split; [exact H|]. split; [exact A|]. split; [exact B|].
  split; [exact C|exact D].
Defined.


Lemma cd_returns_witness :
  exists r p' w',
    parse_simple (Some (simple "cd" (Some (word "/nowhere")))) 0 None p0 w0
      = Ret r p' w'.
Proof.
  exact (cd_returns (os := demo_os) (simple "cd" (Some (word "/nowhere")))
           (word "cd") "cd" 0 None p0 w0
           eq_refl eq_refl eq_refl eq_refl eq_refl eq_refl).
Defined.

End MoreExamples.

(** * The assignment, the built-in [cd], sequencing and redirection, in full *)

(** ** [strtok_r] walks the non-empty pieces *)

Section Pieces.





End Pieces.

(** ** Assignments, by pieces *)

Section AssignmentPieces.
Context {os : OS}.




End AssignmentPieces.

(** ** The built-in [cd], argument by argument *)

Section CdArguments.
Context {os : OS}.

(** What [restore_redirection] leaves: the same process but for its
    descriptors, in the same world. *)
Lemma restore_redirection_runs a b c p w :
  exists p', restore_redirection a b c p w = Ret tt p' w /\ same_but_fds p p'.
Proof.
  destruct (restore_redirection_total a b c p w) as (p' & E).
  exists p'. split; [exact E|].
  apply (restore_redirection_inv _ _ _ _ _ _ _ _ E).
Qed.

(** C7 (as amended). The built-in [cd] whose redirection targets could all
    be opened ([solve_redirection] returned, in the world [w1]) returns, and
    up to [w1] no [chdir] was called.  With no argument it returns 0 and
    calls nothing more.  With two or more arguments it returns 1, calls
    nothing more (so no [chdir] at all) and keeps the working directory.
    With exactly one argument it calls [chdir] once, on that argument's
    string, and returns 0 with the new working directory when the call
    succeeds, 1 with the old one when it fails. *)
Theorem cd_builtin sc vb vs level father p w u p1 w1 :
  verb sc = Some vb ->
  w_string vb = Some vs ->
  get_word vb (env p) = "cd" ->
  solve_redirection sc (saved p) w = Ret u p1 w1 ->
  no_chdir w w1 /\
  exists r p' w',
    parse_simple (Some sc) level father p w = Ret r p' w' /\
    match words (params sc) with
    | [] => r = 0 /\ w' = w1 /\ cwd p' = cwd p
    | [d] =>
        match w_string d with
        | Some path =>
            match os_chdir w1 (cwd p) path with
            | Some d' =>
                r = 0 /\ w' = log (EvChdir (Some path) true) w1 /\ cwd p' = d'
            | None =>
                r = 1 /\ w' = log (EvChdir (Some path) false) w1 /\
                cwd p' = cwd p
            end
        | None =>
            r = 1 /\ w' = log (EvChdir None false) w1 /\ cwd p' = cwd p
        end
    | _ :: _ :: _ => r = 1 /\ w' = w1 /\ cwd p' = cwd p
    end.
Proof.
  intros Hverb Hstr Hcmd Hred.
  destruct (saved_run p w) as (a & b & c & _ & _ & _ & Hrun).
  destruct (solve_redirection_frame _ _ _ _ _ _ Hred) as [(Rcwd & _) Hno].
  destruct (saved_same p) as (Scwd & _).
  assert (Hcwd : cwd p1 = cwd p) by congruence.
  split; [exact Hno|].
  assert (Hstep : forall res p2 w2,
             shell_cd (params sc) p1 w1 = Ret res p2 w2 ->
             exists p',
               parse_simple (Some sc) level father p w
                 = Ret (if res then 0 else 1) p' w2 /\
               cwd p' = cwd p2).
  { intros res p2 w2 Hcd.
    destruct (restore_redirection_runs a b c p2 w2) as (p' & Hback & (Bcwd & _)).
    exists p'. split; [|exact Bcwd].
    unfold parse_simple. rewrite Hverb, Hstr.
    unfold bind at 1. unfold getenv_word. rewrite Hrun, Hcmd.
    change (String.eqb "cd" "cd") with true. cbv iota.
    rewrite (bind_Ret _ _ _ _ _ _ _ Hred).
    rewrite (bind_Ret _ _ _ _ _ _ _ Hcd).
    rewrite (bind_Ret _ _ _ _ _ _ _ Hback). reflexivity. }
  unfold words. destruct (params sc) as [d|] eqn:Hp.
  - rewrite word_chain_cons. destruct (next_word d) as [n|] eqn:Hn.
    + destruct (Hstep false p1 w1) as (p' & E & C).
      { unfold shell_cd. rewrite Hn. reflexivity. }
      exists 1, p', w1. split; [exact E|].
      simpl. rewrite word_chain_cons. repeat split. congruence.
    + simpl. destruct (w_string d) as [path|] eqn:Hd.
      * destruct (os_chdir w1 (cwd p) path) as [d'|] eqn:Hos.
        -- destruct (Hstep true (set_cwd d' p1)
                       (log (EvChdir (Some path) true) w1)) as (p' & E & C).
           { unfold shell_cd. rewrite Hn. unfold bind, sys_chdir.
             rewrite Hd, Hcwd, Hos. reflexivity. }
           exists 0, p', (log (EvChdir (Some path) true) w1).
           split; [exact E|]. repeat split. exact C.
        -- destruct (Hstep false p1 (log (EvChdir (Some path) false) w1))
             as (p' & E & C).
           { unfold shell_cd. rewrite Hn. unfold bind, sys_chdir.
             rewrite Hd, Hcwd, Hos. reflexivity. }
           exists 1, p', (log (EvChdir (Some path) false) w1).
           split; [exact E|]. repeat split. congruence.
      * destruct (Hstep false p1 (log (EvChdir None false) w1)) as (p' & E & C).
        { unfold shell_cd. rewrite Hn. unfold bind, sys_chdir.
          rewrite Hd. reflexivity. }
        exists 1, p', (log (EvChdir None false) w1).
        split; [exact E|]. repeat split. congruence.
  - destruct (Hstep true p1 w1) as (p' & E & C); [reflexivity|].
    exists 0, p', w1. split; [exact E|]. repeat split. congruence.
Qed.

End CdArguments.

(** ** Output and error on the same path *)

Section SamePathAlias.
Context {os : OS}.




End SamePathAlias.

(** ** Runs on the system of [Demo] *)

Section FullExamples.
Import Demo.
Local Existing Instance demo_os.


(** [cd /tmp] calls [chdir] once, enters the directory and gives 0;
    [cd /nowhere] calls it once, stays and gives 1; [cd /tmp /] gives 1 and
    [cd] gives 0, both without any call; [cd /tmp > f] opens [f], then calls
    [chdir] once and gives 0. *)
Lemma cd_builtin_witness :
  (exists p',
      parse_simple (Some (simple "cd" (Some (word "/tmp")))) 0 None p0 w0
        = Ret 0 p' (log (EvChdir (Some "/tmp") true) w0) /\
      cwd p' = "/tmp") /\
  (exists p',
      parse_simple (Some (simple "cd" (Some (word "/nowhere")))) 0 None p0 w0
        = Ret 1 p' (log (EvChdir (Some "/nowhere") false) w0) /\
      cwd p' = "/") /\
  (exists p',
      parse_simple (Some (simple "cd" (Some (word2 "/tmp" "/")))) 0 None p0 w0
        = Ret 1 p' w0 /\
      cwd p' = "/") /\
  (exists p',
      parse_simple (Some (simple "cd" None)) 0 None p0 w0 = Ret 0 p' w0 /\
      cwd p' = "/") /\
  (let sc := mk_simple (Some (word "cd")) (Some (word "/tmp")) None
                       (Some (word "f")) None 0 in
   let trunc := Z.lor (Z.lor O_CREAT O_WRONLY) O_TRUNC in
   exists p',
     parse_simple (Some sc) 0 None p0 w0
       = Ret 0 p' (log (EvChdir (Some "/tmp") true) (opened "f" trunc 7 w0)) /\
     cwd p' = "/tmp").
Proof.
  split; [|split; [|split; [|split]]].
  - destruct (cd_builtin (os := demo_os)
                (simple "cd" (Some (word "/tmp"))) (word "cd") "cd" 0 None
                p0 w0 tt (saved p0) w0 eq_refl eq_refl eq_refl eq_refl)
      as (_ & r & p' & w' & H & M).
    simpl in M. destruct M as (-> & -> & Hc). exists p'. split; assumption.
  - destruct (cd_builtin (os := demo_os)
                (simple "cd" (Some (word "/nowhere"))) (word "cd") "cd" 0 None
                p0 w0 tt (saved p0) w0 eq_refl eq_refl eq_refl eq_refl)
      as (_ & r & p' & w' & H & M).
    simpl in M. destruct M as (-> & -> & Hc). exists p'. split; assumption.
  - destruct (cd_builtin (os := demo_os)
                (simple "cd" (Some (word2 "/tmp" "/"))) (word "cd") "cd" 0 None
                p0 w0 tt (saved p0) w0 eq_refl eq_refl eq_refl eq_refl)
      as (_ & r & p' & w' & H & M).
    simpl in M. destruct M as (-> & -> & Hc). exists p'. split; assumption.
  - destruct (cd_builtin (os := demo_os)
                (simple "cd" None) (word "cd") "cd" 0 None
                p0 w0 tt (saved p0) w0 eq_refl eq_refl eq_refl eq_refl)
      as (_ & r & p' & w' & H & M).
    simpl in M. destruct M as (-> & -> & Hc). exists p'. split; assumption.
  - intros sc trunc.
    eassert (Hs : solve_redirection sc (saved p0) w0
                  = Ret tt _ (opened "f" trunc 7 w0))
      by (vm_compute; reflexivity).
    destruct (cd_builtin (os := demo_os) sc (word "cd") "cd" 0 None
                p0 w0 tt _ _ eq_refl eq_refl eq_refl Hs)
      as (_ & r & p' & w' & H & M).
    simpl in M. destruct M as (-> & -> & Hc). exists p'. split; assumption.
Defined.

(** C7 as stated fails: [cd /tmp / < missing] has two arguments and does
    not return failure, it does not return at all: the input target cannot
    be opened, and that ends the shell with the failure status. *)
Lemma cd_two_arguments_fatal_redirection :
  let sc := mk_simple (Some (word "cd")) (Some (word2 "/tmp" "/"))
                      (Some (word "missing")) None None 0 in
  parse_simple (Some sc) 0 None p0 w0
    = Term (W_EXITCODE EXIT_FAILURE)
           (log (EvDiag "in fd") (log (EvOpen "missing" O_RDONLY None) w0)) /\
  value (parse_simple (Some sc) 0 None p0 w0) = None.
Proof. split; vm_compute; reflexivity. Qed.

(** [false ; true]: the left command has run and returned 1, the right one
    has run after it, and the node returns 0, the value of the right one. *)
Lemma sequential_returns_right_witness :
  let c := mk_command OP_SEQUENTIAL None (leaf "false") (leaf "true") in
  exists p1 w1 p2 w2,
    parse_command (leaf "false") 1 (Some c) p0 w0 = Ret 1 p1 w1 /\
    trace w1 = [EvExecvp ["false"] true; EvFork 100] /\
    parse_command (Some c) 0 None p0 w0 = Ret 0 p2 w2 /\
    trace w2 = [EvExecvp ["true"] true; EvFork 101;
                EvExecvp ["false"] true; EvFork 100].
Proof.
  intros c.
  eassert (Hl : parse_command (leaf "false") (0 + 1) (Some c) p0 w0
                = Ret 1 _ _) by (vm_compute; reflexivity).
  pose proof (sequential_returns_right (os := demo_os)
                None (leaf "false") (leaf "true") 0 None p0 w0 _ _ _ Hl) as Hn.
  cbv zeta in Hn. fold c in Hn.
  lazymatch type of Hn with
  | _ = ?rhs =>
      eassert (Hr : rhs = Ret 0 _ _) by (vm_compute; reflexivity)
  end.
  rewrite Hr in Hn.
  eexists _, _, _, _. split; [exact Hl|]. split; [reflexivity|].
  split; [exact Hn|reflexivity].
Defined.

(** [true || false]: the left command returns 0, the node returns 0 in the
    very state the left command produced, and [false] has not run.
    [false || true]: the left command returns 1, [true] runs after it, and
    the node returns its 0.  [false || exit]: the node returns what [exit]
    returns. *)
Lemma cond_if_nonzero_result_witness :
  (let c := mk_command OP_CONDITIONAL_NZERO None (leaf "true") (leaf "false") in
   exists p1 w1,
     parse_command (leaf "true") 1 (Some c) p0 w0 = Ret 0 p1 w1 /\
     parse_command (Some c) 0 None p0 w0 = Ret 0 p1 w1 /\
     trace w1 = [EvExecvp ["true"] true; EvFork 100]) /\
  (let c := mk_command OP_CONDITIONAL_NZERO None (leaf "false") (leaf "true") in
   exists p1 w1 p2 w2,
     parse_command (leaf "false") 1 (Some c) p0 w0 = Ret 1 p1 w1 /\
     parse_command (Some c) 0 None p0 w0 = Ret 0 p2 w2 /\
     trace w2 = [EvExecvp ["true"] true; EvFork 101;
                 EvExecvp ["false"] true; EvFork 100]) /\
  (let c := mk_command OP_CONDITIONAL_NZERO None (leaf "false") (leaf "exit") in
   exists p1 w1 p2,
     parse_command (leaf "false") 1 (Some c) p0 w0 = Ret 1 p1 w1 /\
     parse_command (Some c) 0 None p0 w0 = Ret SHELL_EXIT p2 w1).
Proof.
  split; [|split]; intros c.
  - eassert (Hl : parse_command (leaf "true") (0 + 1) (Some c) p0 w0
                  = Ret 0 _ _) by (vm_compute; reflexivity).
    destruct (cond_if_nonzero_result (os := demo_os)
                None (leaf "true") (leaf "false") 0 None p0 w0 _ _ _ Hl)
      as [Hz _].
    fold c in Hz.
    eexists _, _. split; [exact Hl|]. split; [exact (Hz eq_refl)|reflexivity].
  - eassert (Hl : parse_command (leaf "false") (0 + 1) (Some c) p0 w0
                  = Ret 1 _ _) by (vm_compute; reflexivity).
    destruct (cond_if_nonzero_result (os := demo_os)
                None (leaf "false") (leaf "true") 0 None p0 w0 _ _ _ Hl)
      as [_ Hnz].
    fold c in Hnz. specialize (Hnz ltac:(discriminate)).
    lazymatch type of Hnz with
    | _ = ?rhs =>
        eassert (Hr : rhs = Ret 0 _ _) by (vm_compute; reflexivity)
    end.
    rewrite Hr in Hnz.
    eexists _, _, _, _. split; [exact Hl|]. split; [exact Hnz|reflexivity].
  - eassert (Hl : parse_command (leaf "false") (0 + 1) (Some c) p0 w0
                  = Ret 1 _ _) by (vm_compute; reflexivity).
    destruct (cond_if_nonzero_result (os := demo_os)
                None (leaf "false") (leaf "exit") 0 None p0 w0 _ _ _ Hl)
      as [_ Hnz].
    fold c in Hnz. specialize (Hnz ltac:(discriminate)).
    lazymatch type of Hnz with
    | _ = ?rhs =>
        eassert (Hr : rhs = Ret SHELL_EXIT _ _) by (vm_compute; reflexivity)
    end.
    rewrite Hr in Hnz.
    eexists _, _, _. split; [exact Hl|]. exact Hnz.
Defined.



End FullExamples.
